(** * Operation scheduler of the service manager: a shallow embedding

    Source: [operations/scheduler.go].  The scheduler stores [Operation]
    records, guards resources against overlapping operations, runs storage
    actions synchronously or in pooled goroutines and reconciles the
    operation record after the action returned, failed or panicked.

    Go pointers to operations that are mutated in place are modelled by
    explicit passing of the mutated record; the repository, the worker
    channel, the wait group and the started goroutines form the [World]
    threaded through a state monad whose results are either a normal return
    or a Go panic.  Logging and the deadline contexts around an action do
    not touch that state and are left out. *)

From stdpp Require Import base option list strings gmap relations.
From Stdlib Require Import ZArith Lia.

Local Open Scope Z_scope.
Local Open Scope string_scope.

(** ** Data model *)

(** Modelled from the spec: [types.OperationCategory] is a string type
    declared outside the sources; the three known categories are the
    constants the scheduler switches on, every other value is
    [OtherCategory]. *)
Inductive OperationCategory : Type :=
| CREATE
| UPDATE
| DELETE
| OtherCategory (name : string).

(** Modelled from the spec: [types.OperationState], section 3 of the spec. *)
Inductive OperationState : Type :=
| IN_PROGRESS
| SUCCEEDED
| FAILED.

#[global] Instance OperationCategory_eq_dec : EqDecision OperationCategory.
Proof. solve_decision. Defined.

#[global] Instance OperationState_eq_dec : EqDecision OperationState.
Proof. solve_decision. Defined.

Definition CategoryString (c : OperationCategory) : string :=
  match c with
  | CREATE => "create"
  | UPDATE => "update"
  | DELETE => "delete"
  | OtherCategory name => name
  end.

Definition StateString (s : OperationState) : string :=
  match s with
  | IN_PROGRESS => "in progress"
  | SUCCEEDED => "succeeded"
  | FAILED => "failed"
  end.

(** [time.Time] as an instant counted in nanoseconds; the zero value of the
    type is [0], durations are integers as well. *)
Definition Time : Type := Z.
Definition Duration : Type := Z.
Definition IsZero (t : Time) : bool := bool_decide (t = 0).
Definition Add (t : Time) (d : Duration) : Time := t + d.
Definition Before (t u : Time) : bool := bool_decide (t < u).

Definition ObjectType : Type := string.

(** Go [error] values the scheduler produces or inspects. *)
Inductive error : Type :=
| ErrNotFoundInStorage
| ErrAlreadyExistsInStorage
| ErrorString (text : string)
| HTTPError (ErrorType Description : string) (StatusCode : Z).

#[global] Instance error_eq_dec : EqDecision error.
Proof. solve_decision. Defined.

(** [types.RelatedType]: an entry of [Operation.TransitiveResources]. *)
Record RelatedType : Type := mkRelatedType {
  rt_ID : string;
  rt_Type : ObjectType;
  rt_OperationType : OperationCategory
}.

(** [types.Operation] with the fields the scheduler reads or writes;
    [Errors] is the raw JSON payload. *)
Record Operation : Type := mkOperation {
  ID : string;
  UpdatedAt : Time;
  Type_ : OperationCategory;
  State : OperationState;
  ResourceID : string;
  ResourceType : ObjectType;
  Reschedule : bool;
  DeletionScheduled : Time;
  Errors : string;
  TransitiveResources : list RelatedType
}.

Definition with_State (state : OperationState) (o : Operation) : Operation :=
  mkOperation (ID o) (UpdatedAt o) (Type_ o) state (ResourceID o)
    (ResourceType o) (Reschedule o) (DeletionScheduled o) (Errors o)
    (TransitiveResources o).

Definition with_Errors (errors : string) (o : Operation) : Operation :=
  mkOperation (ID o) (UpdatedAt o) (Type_ o) (State o) (ResourceID o)
    (ResourceType o) (Reschedule o) (DeletionScheduled o) errors
    (TransitiveResources o).

Definition with_DeletionScheduled (t : Time) (o : Operation) : Operation :=
  mkOperation (ID o) (UpdatedAt o) (Type_ o) (State o) (ResourceID o)
    (ResourceType o) (Reschedule o) t (Errors o) (TransitiveResources o).

Definition with_TransitiveResources (l : list RelatedType) (o : Operation)
  : Operation :=
  mkOperation (ID o) (UpdatedAt o) (Type_ o) (State o) (ResourceID o)
    (ResourceType o) (Reschedule o) (DeletionScheduled o) (Errors o) l.

Definition with_UpdatedAt (t : Time) (o : Operation) : Operation :=
  mkOperation (ID o) t (Type_ o) (State o) (ResourceID o)
    (ResourceType o) (Reschedule o) (DeletionScheduled o) (Errors o)
    (TransitiveResources o).

(** A stored resource behind the [types.Object] interface: [GetID],
    [GetType] and the [Ready] flag written by [SetReady]. *)
Record Object : Type := mkObject {
  GetID : string;
  GetType : ObjectType;
  Ready : bool
}.

(** Settings of a [Scheduler]; the channel [workers] and the wait group
    are mutable and live in the [World] below. *)
Record Scheduler : Type := mkScheduler {
  poolSize : nat;
  actionTimeout : Duration;
  reconciliationOperationTimeout : Duration;
  reschedulingDelay : Duration
}.

(** Helpers of other packages the scheduler calls; they are declared
    outside the sources and taken as parameters. *)
Class Externals : Type := {
  (** [types.OperationType.String()] *)
  OperationTypeName : string;
  (** [operation.Validate()] *)
  Validate : Operation -> option error;
  (** [opcontext.Set]: the error, if the operation cannot be attached *)
  opcontext_Set : Operation -> option error;
  (** [util.ToHTTPError] *)
  ToHTTPError : error -> error;
  (** [json.Marshal] of an HTTP error *)
  json_Marshal : error -> string + error;
  (** [util.HandleStorageError] *)
  HandleStorageError : error -> string -> error;
  (** [Error()] of the storage sentinels and of [*util.HTTPError] *)
  sentinelText : error -> string
}.

(** [err.Error()], as [fmt.Errorf] prints an error under [%s]. *)
Definition Error `{Externals} (e : error) : string :=
  match e with
  | ErrorString text => text
  | _ => sentinelText e
  end.

(** ** The repository

    Modelled from the spec: [storage.Repository] is an interface whose
    implementations are outside the sources.  Following sections 4.1 and 6
    of the spec it is a table of operations in ascending [paging_sequence],
    a table of resources keyed by type and id whose rows are reduced to the
    [Ready] column, and calls that either succeed against the tables or
    fail with a storage error.  The script [faults] decides which of the
    coming calls fail: each call consumes one entry, [Some text] makes it
    fail with a storage error of that text, [None] or an exhausted script
    lets it through. *)
Record Repository : Type := mkRepository {
  operations : list Operation;
  objects : gmap (ObjectType * string) bool;
  faults : list (option string);
  clock : Time
}.

Definition with_tables (ops : list Operation)
    (objs : gmap (ObjectType * string) bool) (r : Repository) : Repository :=
  mkRepository ops objs (faults r) (clock r).

Definition with_clock (t : Time) (r : Repository) : Repository :=
  mkRepository (operations r) (objects r) (faults r) t.

Definition consumeFault (r : Repository) : Repository :=
  mkRepository (operations r) (objects r) (tail (faults r)) (clock r).

(** One repository call: consume an entry of the fault script. *)
Definition call {A : Type} (body : Repository -> (A + error) * Repository)
    (r : Repository) : (A + error) * Repository :=
  match head (faults r) with
  | Some (Some text) => (inr (ErrorString text), consumeFault r)
  | _ => body (consumeFault r)
  end.

Definition hasID (id : string) (o : Operation) : bool :=
  bool_decide (ID o = id).

Definition hasResourceID (id : string) (o : Operation) : bool :=
  bool_decide (ResourceID o = id).

(** [Get(OperationType, ByField(Equals, "id", id))] *)
Definition GetOperation (id : string) : Repository -> (Operation + error) * Repository :=
  call (fun r =>
    match find (hasID id) (operations r) with
    | Some o => (inl o, r)
    | None => (inr ErrNotFoundInStorage, r)
    end).

(** [Get(OperationType, ByField(Equals, "resource_id", id),
    OrderResultBy("paging_sequence", Desc))] *)
Definition LastOperation (resourceID : string)
  : Repository -> (Operation + error) * Repository :=
  call (fun r =>
    match find (hasResourceID resourceID) (rev (operations r)) with
    | Some o => (inl o, r)
    | None => (inr ErrNotFoundInStorage, r)
    end).

(** [Create] of an operation: the store assigns the next
    [paging_sequence]. *)
Definition CreateOperation (o : Operation)
  : Repository -> (Operation + error) * Repository :=
  call (fun r =>
    match find (hasID (ID o)) (operations r) with
    | Some _ => (inr ErrAlreadyExistsInStorage, r)
    | None => (inl o, with_tables (operations r ++ [o]) (objects r) r)
    end).

Fixpoint replaceOperation (o : Operation) (l : list Operation) : list Operation :=
  match l with
  | [] => []
  | x :: l' => if hasID (ID o) x then o :: l' else x :: replaceOperation o l'
  end.

(** [Update] of an operation; the store bumps [updated_at]. *)
Definition UpdateOperation (o : Operation)
  : Repository -> (Operation + error) * Repository :=
  call (fun r =>
    match find (hasID (ID o)) (operations r) with
    | Some _ =>
        let o' := with_UpdatedAt (clock r) o in
        (inl o', with_tables (replaceOperation o' (operations r)) (objects r) r)
    | None => (inr ErrNotFoundInStorage, r)
    end).

(** [Get(objectType, ByField(Equals, "id", id))] of a resource *)
Definition GetResource (objectType : ObjectType) (id : string)
  : Repository -> (Object + error) * Repository :=
  call (fun r =>
    match objects r !! (objectType, id) with
    | Some ready => (inl (mkObject id objectType ready), r)
    | None => (inr ErrNotFoundInStorage, r)
    end).

Definition CreateResource (obj : Object)
  : Repository -> (Object + error) * Repository :=
  call (fun r =>
    match objects r !! (GetType obj, GetID obj) with
    | Some _ => (inr ErrAlreadyExistsInStorage, r)
    | None =>
        (inl obj,
         with_tables (operations r)
           (<[(GetType obj, GetID obj) := Ready obj]> (objects r)) r)
    end).

(** [Update(obj, LabelChanges{})] of a resource *)
Definition UpdateResource (obj : Object)
  : Repository -> (Object + error) * Repository :=
  call (fun r =>
    match objects r !! (GetType obj, GetID obj) with
    | Some _ =>
        (inl obj,
         with_tables (operations r)
           (<[(GetType obj, GetID obj) := Ready obj]> (objects r)) r)
    | None => (inr ErrNotFoundInStorage, r)
    end).

(** [Delete(objectType, ByField(Equals, "id", id))]; the unit result
    stands for a nil error. *)
Definition Delete (objectType : ObjectType) (id : string)
  : Repository -> (unit + error) * Repository :=
  call (fun r =>
    match objects r !! (objectType, id) with
    | Some _ =>
        (inl tt, with_tables (operations r) (delete (objectType, id) (objects r)) r)
    | None => (inr ErrNotFoundInStorage, r)
    end).

(** ** Actions, goroutines and the world *)

(** What running a [storageAction] produced: the pair [(object, error)] it
    returned, either of which may be nil, or the value it panicked with. *)
Inductive ActionOutcome : Type :=
| ActionReturned (object : option Object) (err : option error)
| ActionPanicked (v : string).

(** [storageAction]: a function of the repository (the context carries no
    state of the model). *)
Definition storageAction : Type := Repository -> ActionOutcome * Repository.

(** A goroutine started by [ScheduleAsyncStorageAction]. *)
Record Job : Type := mkJob {
  job_operation : Operation;
  job_action : storageAction
}.

(** The mutable state around the scheduler: the repository, the number of
    tokens in the channel [s.workers], the counter of the wait group
    [s.wg], the goroutines started and not yet run, and [s.smCtx.Err()]
    of the lifecycle context: [None] while it is live, the text of the
    error once it is done. *)
Record World : Type := mkWorld {
  repository : Repository;
  workers : nat;
  wg : Z;
  goroutines : list Job;
  smCtxErr : option string
}.

Definition with_repository (r : Repository) (w : World) : World :=
  mkWorld r (workers w) (wg w) (goroutines w) (smCtxErr w).

Definition with_workers (n : nat) (w : World) : World :=
  mkWorld (repository w) n (wg w) (goroutines w) (smCtxErr w).

Definition with_wg (n : Z) (w : World) : World :=
  mkWorld (repository w) (workers w) n (goroutines w) (smCtxErr w).

Definition with_goroutines (l : list Job) (w : World) : World :=
  mkWorld (repository w) (workers w) (wg w) l (smCtxErr w).

(** A computation either returns or panics; both leave a world behind. *)
Inductive Result (A : Type) : Type :=
| Returned (a : A) (w : World)
| Panicked (v : string) (w : World).
Arguments Returned {A} a w.
Arguments Panicked {A} v w.

Definition M (A : Type) : Type := World -> Result A.

#[global] Instance M_ret : MRet M := fun A a w => Returned a w.

#[global] Instance M_bind : MBind M := fun A B f m w =>
  match m w with
  | Returned a w' => f a w'
  | Panicked v w' => Panicked v w'
  end.

Definition panic {A : Type} (v : string) : M A := fun w => Panicked v w.

Definition nilDereference : string :=
  "runtime error: invalid memory address or nil pointer dereference".

(** A repository call made from scheduler code. *)
Definition repo {A : Type} (c : Repository -> A * Repository) : M A :=
  fun w => let '(a, r) := c (repository w) in Returned a (with_repository r w).

Definition timeNow : M Time := fun w => Returned (clock (repository w)) w.

Definition finalWorld {A : Type} (r : Result A) : World :=
  match r with
  | Returned _ w => w
  | Panicked _ w => w
  end.

(** [InTransaction]: the writes of [fn] are kept when it returns a nil
    error and rolled back when it returns an error or panics; what [fn]
    did to the Go values it closes over is returned in the first
    component and survives a rollback. *)
Definition rollback (before after : World) : World :=
  with_repository
    (with_tables (operations (repository before)) (objects (repository before))
       (repository after))
    after.

Definition InTransaction {X : Type} (fn : M (X * option error))
  : M (X * option error) :=
  fun w =>
    match fn w with
    | Returned (x, None) w' => Returned (x, None) w'
    | Returned (x, Some e) w' => Returned (x, Some e) (rollback w w')
    | Panicked v w' => Panicked v (rollback w w')
    end.

(** ** The scheduler *)

Section SchedulerCode.
Context `{Externals}.

Definition ConcurrentOperationInProgress (description : string) : error :=
  HTTPError "ConcurrentOperationInProgress" description 422.

Definition unknownType (t : OperationCategory) : error :=
  ErrorString ("operation type " +:+ CategoryString t +:+ " is unknown type").

(** [checkForConcurrentOperations]; [now] is the value of [time.Now()]. *)
Definition checkForConcurrentOperations (s : Scheduler) (now : Time)
    (operation lastOperation : Operation) : option error :=
  let isDeletionScheduled := negb (IsZero (DeletionScheduled lastOperation)) in
  let isLastOpInProgress :=
    bool_decide (State lastOperation = IN_PROGRESS)
    && Before now (Add (UpdatedAt lastOperation) (actionTimeout s)) in
  let isAReschedule := Reschedule lastOperation && Reschedule operation in
  match Type_ lastOperation with
  | CREATE =>
      match Type_ operation with
      | CREATE =>
          if isLastOpInProgress && negb isDeletionScheduled && negb isAReschedule
          then Some (ConcurrentOperationInProgress
                       "Another concurrent operation in progress for this resource")
          else None
      | UPDATE =>
          if isLastOpInProgress
          then Some (ConcurrentOperationInProgress
                       "Another concurrent operation in progress for this resource")
          else None
      | DELETE => None
      | OtherCategory _ => Some (unknownType (Type_ operation))
      end
  | UPDATE =>
      match Type_ operation with
      | CREATE =>
          if isLastOpInProgress
          then Some (ConcurrentOperationInProgress
                       "Another concurrent operation in progress for this resource")
          else None
      | UPDATE =>
          if isLastOpInProgress && negb isDeletionScheduled && negb isAReschedule
          then Some (ConcurrentOperationInProgress
                       "Another concurrent operation in progress for this resource")
          else None
      | DELETE => None
      | OtherCategory _ => Some (unknownType (Type_ operation))
      end
  | DELETE =>
      match Type_ operation with
      | CREATE =>
          if isLastOpInProgress || isDeletionScheduled
          then Some (ConcurrentOperationInProgress
                       "Deletion is currently in progress for this resource")
          else None
      | UPDATE =>
          if isLastOpInProgress || isDeletionScheduled
          then Some (ConcurrentOperationInProgress
                       "Deletion is currently in progress for this resource")
          else None
      | DELETE =>
          if isLastOpInProgress && negb isDeletionScheduled && negb isAReschedule
          then Some (ConcurrentOperationInProgress
                       "Deletion is currently in progress for this resource")
          else None
      | OtherCategory _ => Some (unknownType (Type_ operation))
      end
  | OtherCategory _ => Some (unknownType (Type_ lastOperation))
  end.
(** The closure [func(obj types.Object) { obj.SetReady(ready) }]: calling
    a method of a nil object panics. *)
Definition SetReady (ready : bool) (obj : option Object) : M Object :=
  match obj with
  | None => panic nilDereference
  | Some o => mret (mkObject (GetID o) (GetType o) ready)
  end.

(** [updateResource] *)
Definition updateResource (objectAfterAction : option Object)
    (updateFunc : option Object -> M Object) : M (option Object * option error) :=
  obj ← updateFunc objectAfterAction;
  res ← repo (UpdateResource obj);
  match res with
  | inr _ =>
      mret (None, Some (ErrorString
        ("failed to update object with type " +:+ GetType obj +:+
         " and id " +:+ GetID obj)))
  | inl updatedObject => mret (Some updatedObject, None)
  end.

(** [fetchAndUpdateResource] *)
Definition fetchAndUpdateResource (objectID : string) (objectType : ObjectType)
    (updateFunc : option Object -> M Object) : M (option error) :=
  res ← repo (GetResource objectType objectID);
  match res with
  | inr err =>
      if bool_decide (err = ErrNotFoundInStorage) then mret None
      else mret (Some (ErrorString
             ("failed to retrieve object of type " +:+ objectType +:+
              " with id " +:+ objectID +:+ ":" +:+ Error err)))
  | inl objectFromDB =>
      '(_, err) ← updateResource (Some objectFromDB) updateFunc;
      mret err
  end.

(** [updateTransitiveResources] *)
Fixpoint updateTransitiveResources (resources : list RelatedType)
    (updateFunc : option Object -> M Object) : M (option error) :=
  match resources with
  | [] => mret None
  | trR :: rest =>
      if bool_decide (rt_OperationType trR = CREATE) then
        err ← fetchAndUpdateResource (rt_ID trR) (rt_Type trR) updateFunc;
        match err with
        | Some e => mret (Some e)
        | None => updateTransitiveResources rest updateFunc
        end
      else updateTransitiveResources rest updateFunc
  end.

(** [updateOperationState]; [operation] is a pointer and may be nil.
    The mutated operation is returned next to the error. *)
Definition updateOperationState (operation : option Operation)
    (state : OperationState) (opErr : option error)
  : M (Operation * option error) :=
  match operation with
  | None => panic nilDereference
  | Some operation =>
      let operation := with_State state operation in
      let marshalled :=
        match opErr with
        | None => inl operation
        | Some e =>
            let httpError := ToHTTPError e in
            match json_Marshal httpError with
            | inr err => inr err
            | inl bytes =>
                if bool_decide (String.length (Errors operation) = 0%nat)
                then inl (with_Errors bytes operation)
                else inl operation
            end
        end in
      match marshalled with
      | inr err => mret (operation, Some err)
      | inl operation =>
          res ← repo (UpdateOperation operation);
          match res with
          | inr err =>
              mret (operation, Some (ErrorString
                ("failed to update state of operation with id " +:+ ID operation
                 +:+ " to " +:+ StateString state +:+ ": " +:+ Error err)))
          | inl _ => mret (operation, None)
          end
      end
  end.

(** [refetchOperation]: the re-fetched operation, or nil and an error;
    the first component is [operation] as the failure write left it. *)
Definition refetchOperation (operation : Operation)
  : M (Operation * option Operation * option error) :=
  res ← repo (GetOperation (ID operation));
  match res with
  | inr opErr =>
      let opErr := ErrorString
        ("failed to re-fetch currently executing operation with id " +:+
         ID operation +:+ " from db: " +:+ Error opErr) in
      '(operation, err) ← updateOperationState (Some operation) FAILED (Some opErr);
      match err with
      | Some err =>
          mret (operation, None, Some (ErrorString
            ("setting new operation state due to err " +:+ Error opErr +:+
             " failed: " +:+ Error err)))
      | None => mret (operation, None, Some opErr)
      end
  | inl opObject => mret (operation, Some opObject, None)
  end.

(** [addOperationToContext]; the context itself carries nothing the model
    reads, so only the error is returned. *)
Definition addOperationToContext (operation : Operation) : M (option error) :=
  match opcontext_Set operation with
  | Some setCtxErr =>
      let setCtxErr := ErrorString
        ("failed to set operation in job context: " +:+ Error setCtxErr) in
      '(_, err) ← updateOperationState (Some operation) FAILED (Some setCtxErr);
      match err with
      | Some err =>
          mret (Some (ErrorString
            ("setting new operation state due to err " +:+ Error setCtxErr +:+
             " failed: " +:+ Error err)))
      | None => mret (Some setCtxErr)
      end
  | None => mret None
  end.

(** [getResourceLastOperation]: [(lastOperation, found, err)] *)
Definition getResourceLastOperation (operation : Operation)
  : M (option Operation * bool * option error) :=
  res ← repo (LastOperation (ResourceID operation));
  match res with
  | inr err =>
      if bool_decide (err = ErrNotFoundInStorage) then mret (None, false, None)
      else mret (None, false, Some (HandleStorageError err OperationTypeName))
  | inl lastOperationObject => mret (Some lastOperationObject, true, None)
  end.

(** [storeOrUpdateOperation] *)
Definition storeOrUpdateOperation (operation : Operation)
    (lastOperation : option Operation) : M (option error) :=
  if match lastOperation with
     | None => true
     | Some last => negb (bool_decide (ID operation = ID last))
     end
  then
    res ← repo (CreateOperation operation);
    match res with
    | inr err => mret (Some (HandleStorageError err OperationTypeName))
    | inl _ => mret None
    end
  else if Reschedule operation || negb (IsZero (DeletionScheduled operation))
  then
    res ← repo (UpdateOperation operation);
    match res with
    | inr err => mret (Some (HandleStorageError err OperationTypeName))
    | inl _ => mret None
    end
  else mret (Some (ErrorString "operation with this id was already executed")).

(** [executeOperationPreconditions] *)
Definition executeOperationPreconditions (s : Scheduler) (operation : Operation)
  : M (option error) :=
  if bool_decide (State operation = SUCCEEDED) then
    mret (Some (ErrorString
      ("scheduling for operations of type " +:+ StateString SUCCEEDED +:+
       " is not allowed")))
  else
    match Validate operation with
    | Some err =>
        mret (Some (ErrorString
          ("scheduled operation is not valid: " +:+ Error err)))
    | None =>
        '(lastOperation, found, err) ← getResourceLastOperation operation;
        match err with
        | Some err => mret (Some err)
        | None =>
            now ← timeNow;
            match
              (if (found : bool) then
                 match lastOperation with
                 | Some last => checkForConcurrentOperations s now operation last
                 | None => None
                 end
               else None)
            with
            | Some err => mret (Some err)
            | None => storeOrUpdateOperation operation lastOperation
            end
        end
    end.

Definition ServiceUnavailable : error :=
  HTTPError "ServiceUnavailable"
    "Failed to schedule job. Server is busy - try again in a few minutes." 503.

(** The non-blocking send [s.workers <- struct{}{}] of the [select]:
    it succeeds when the buffer of capacity [poolSize] has room. *)
Definition trySendWorker (s : Scheduler) : M bool :=
  fun w =>
    if bool_decide (workers w < poolSize s)%nat
    then Returned true (with_workers (S (workers w)) w)
    else Returned false w.

(** [<-s.workers]; every receive of the scheduler follows a send of its
    own, so the channel is not empty. *)
Definition receiveWorker : M unit :=
  fun w => Returned tt (with_workers (pred (workers w)) w).

(** [s.wg.Add(delta)]; [s.wg.Done()] is [wgAdd (-1)]. *)
Definition wgAdd (delta : Z) : M unit :=
  fun w => Returned tt (with_wg (wg w + delta) w).

(** The [go] statement. *)
Definition go (job : Job) : M unit :=
  fun w => Returned tt (with_goroutines (goroutines w ++ [job]) w).

(** [ScheduleAsyncStorageAction]; the goroutine it starts is recorded in
    the world and run by [worker] below. *)
Definition ScheduleAsyncStorageAction (s : Scheduler) (operation : Operation)
    (action : storageAction) : M (option error) :=
  admitted ← trySendWorker s;
  if (admitted : bool) then
    err ← executeOperationPreconditions s operation;
    match err with
    | Some err =>
        _ ← receiveWorker;
        mret (Some err)
    | None =>
        _ ← wgAdd 1;
        _ ← go (mkJob operation action);
        mret None
    end
  else mret (Some ServiceUnavailable).

(** The action synthesized by the failure path for orphan mitigation. *)
Definition deletionAction (opAfterJob : Operation) : storageAction :=
  fun r =>
    let '(res, r') := Delete (ResourceType opAfterJob) (ResourceID opAfterJob) r in
    match res with
    | inr err =>
        if bool_decide (err = ErrNotFoundInStorage)
        then (ActionReturned None None, r')
        else (ActionReturned None
                (Some (HandleStorageError err (ResourceType opAfterJob))), r')
    | inl _ => (ActionReturned None None, r')
    end.

(** The function [handleActionResponseFailure] runs in its transaction. *)
Definition failureTransaction (actionError : error) (opAfterJob : Operation)
  : M (Operation * option error) :=
  err ← (if bool_decide (Type_ opAfterJob = CREATE)
            && bool_decide (State opAfterJob = FAILED)
         then
           err ← fetchAndUpdateResource (ResourceID opAfterJob)
                   (ResourceType opAfterJob) (SetReady false);
           match err with
           | Some e => mret (Some e)
           | None =>
               updateTransitiveResources (TransitiveResources opAfterJob)
                 (SetReady false)
           end
         else mret None);
  match err with
  | Some e => mret (opAfterJob, Some e)
  | None =>
      '(opAfterJob, opErr) ←
        updateOperationState (Some opAfterJob) FAILED (Some actionError);
      match opErr with
      | Some opErr =>
          mret (opAfterJob, Some (ErrorString
            ("setting new operation state failed: " +:+ Error opErr)))
      | None => mret (opAfterJob, None)
      end
  end.

Definition isDeleteRescheduleRequired (s : Scheduler) (now : Time)
    (opAfterJob : Operation) : bool :=
  negb (IsZero (DeletionScheduled opAfterJob))
  && Before now (Add (DeletionScheduled opAfterJob)
                   (reconciliationOperationTimeout s))
  && negb (bool_decide (State opAfterJob = SUCCEEDED)).

(** The [select] on [s.smCtx.Done()] and [time.After(s.reschedulingDelay)]:
    the error of the lifecycle context when it is done, otherwise the
    delay passes. *)
Definition waitReschedulingDelay (s : Scheduler) : M (option string) :=
  fun w =>
    match smCtxErr w with
    | Some text => Returned (Some text) w
    | None =>
        Returned None
          (with_repository
             (with_clock (Add (clock (repository w)) (reschedulingDelay s))
                (repository w)) w)
    end.

Definition BrokerError (actionError orphanMitigationErr : error) : error :=
  HTTPError "BrokerError"
    ("job failed with " +:+ Error actionError +:+
     " and orphan mitigation failed with " +:+ Error orphanMitigationErr) 502.

(** [handleActionResponseFailure] *)
Definition handleActionResponseFailure (s : Scheduler) (actionError : error)
    (opAfterJob : Operation) : M (option error) :=
  '(opAfterJob, err) ← InTransaction (failureTransaction actionError opAfterJob);
  match err with
  | Some err => mret (Some err)
  | None =>
      now ← timeNow;
      if isDeleteRescheduleRequired s now opAfterJob then
        cancelled ← waitReschedulingDelay s;
        match cancelled with
        | Some text => mret (Some (ErrorString ("sm context canceled: " +:+ text)))
        | None =>
            orphanMitigationErr ←
              ScheduleAsyncStorageAction s opAfterJob (deletionAction opAfterJob);
            match orphanMitigationErr with
            | Some orphanMitigationErr =>
                mret (Some (BrokerError actionError orphanMitigationErr))
            | None => mret (Some actionError)
            end
        end
      else mret (Some actionError)
  end.

Definition finalStateOf (opAfterJob : Operation) : OperationState :=
  if negb (bool_decide (Type_ opAfterJob = DELETE))
     && negb (IsZero (DeletionScheduled opAfterJob))
  then FAILED else SUCCEEDED.

(** The function [handleActionResponseSuccess] runs in its transaction;
    the first component is the [actionObject] variable of the enclosing
    function. *)
Definition successTransaction (actionObject : option Object)
    (opAfterJob : Operation) : M (option Object * option error) :=
  let finalState := finalStateOf opAfterJob in
  let opAfterJob :=
    if bool_decide (finalState = SUCCEEDED) then with_Errors "" opAfterJob
    else opAfterJob in
  let opAfterJob := with_DeletionScheduled 0 opAfterJob in
  '(actionObject, err) ←
    (if bool_decide (Type_ opAfterJob = CREATE)
        && bool_decide (finalState = SUCCEEDED)
     then
       '(actionObject, err) ← updateResource actionObject (SetReady true);
       match err with
       | Some e => mret (actionObject, Some e)
       | None =>
           err ← updateTransitiveResources (TransitiveResources opAfterJob)
                   (SetReady true);
           mret (actionObject, err)
       end
     else mret (actionObject, None));
  match err with
  | Some e => mret (actionObject, Some e)
  | None =>
      '(_, err) ← updateOperationState (Some opAfterJob) finalState None;
      mret (actionObject, err)
  end.

(** [handleActionResponseSuccess] *)
Definition handleActionResponseSuccess (actionObject : option Object)
    (opAfterJob : Operation) : M (option Object * option error) :=
  '(actionObject, err) ← InTransaction (successTransaction actionObject opAfterJob);
  match err with
  | Some err =>
      mret (None, Some (ErrorString
        ("failed to update resource ready or operation state after a " +:+
         "successfully executing operation with id " +:+ ID opAfterJob +:+
         ": " +:+ Error err)))
  | None => mret (actionObject, None)
  end.

(** [handleActionResponse] *)
Definition handleActionResponse (s : Scheduler) (actionObject : option Object)
    (actionError : option error) (opBeforeJob : Operation)
  : M (option Object * option error) :=
  '(opBeforeJob, opAfterJob, err) ← refetchOperation opBeforeJob;
  match err with
  | Some err => mret (None, Some err)
  | None =>
      match opAfterJob with
      | None => panic nilDereference
      | Some opAfterJob =>
          let opAfterJob :=
            with_TransitiveResources (TransitiveResources opBeforeJob) opAfterJob in
          err ← addOperationToContext opAfterJob;
          match err with
          | Some err => mret (None, Some err)
          | None =>
              match actionError with
              | Some actionError =>
                  err ← handleActionResponseFailure s actionError opAfterJob;
                  mret (None, err)
              | None =>
                  if negb (Reschedule opAfterJob)
                  then handleActionResponseSuccess actionObject opAfterJob
                  else mret (actionObject, None)
              end
          end
      end
  end.

(** Running an action against the repository; a panic of the action
    unwinds the caller. *)
Definition runAction (action : storageAction)
  : M (option Object * option error) :=
  fun w =>
    let '(outcome, r) := action (repository w) in
    match outcome with
    | ActionReturned object err => Returned (object, err) (with_repository r w)
    | ActionPanicked v => Panicked v (with_repository r w)
    end.

(** [ScheduleSyncStorageAction] *)
Definition ScheduleSyncStorageAction (s : Scheduler) (operation : Operation)
    (action : storageAction) : M (option Object * option error) :=
  err ← executeOperationPreconditions s operation;
  match err with
  | Some err => mret (None, Some err)
  | None =>
      err ← addOperationToContext operation;
      match err with
      | Some err => mret (None, Some err)
      | None =>
          '(object, actionErr) ← runAction action;
          '(object, err) ← handleActionResponse s object actionErr operation;
          match err with
          | Some err => mret (None, Some err)
          | None => mret (object, None)
          end
      end
  end.

(** The body of the goroutine started by [ScheduleAsyncStorageAction],
    without its deferred function. *)
Definition workerBody (s : Scheduler) (operation : Operation)
    (action : storageAction) : M unit :=
  err ← addOperationToContext operation;
  match err with
  | Some _ => mret tt
  | None =>
      '(objectAfterAction, actionErr) ← runAction action;
      _ ← handleActionResponse s objectAfterAction actionErr operation;
      mret tt
  end.

Definition jobInterrupted : error :=
  HTTPError "InternalServerError" "job interrupted" 500.

(** The deferred function of the goroutine; [panicErr] is the result of
    [recover()]. *)
Definition workerDeferred (operation : Operation) (panicErr : option string)
  : M unit :=
  _ ← match panicErr with
      | Some _ =>
          '(_, op, _) ← refetchOperation operation;
          _ ← updateOperationState op FAILED (Some jobInterrupted);
          mret tt
      | None => mret tt
      end;
  _ ← receiveWorker;
  wgAdd (-1).

(** The goroutine: its body, then the deferred function, which also runs
    when the body panicked. *)
Definition worker (s : Scheduler) (operation : Operation)
    (action : storageAction) : M unit :=
  fun w =>
    match workerBody s operation action w with
    | Returned _ w' => workerDeferred operation None w'
    | Panicked v w' => workerDeferred operation (Some v) w'
    end.

(** Running the goroutine that was started first; the Go runtime may pick
    any of them. *)
Definition runGoroutine (s : Scheduler) : M unit :=
  fun w =>
    match goroutines w with
    | [] => Returned tt w
    | job :: rest =>
        worker s (job_operation job) (job_action job) (with_goroutines rest w)
    end.
End SchedulerCode.

(** ** Spec-level notions used to state the properties *)

(** The gate's verdicts as section 4.2 of the spec tabulates them. *)
Inductive Verdict : Type :=
| Admit
| Reject
| UnknownType.

(** [isLastInProgress] of section 4.2. *)
Definition isLastInProgress (s : Scheduler) (now : Time) (last : Operation) : bool :=
  bool_decide (State last = IN_PROGRESS)
  && bool_decide (now < UpdatedAt last + actionTimeout s).

(** [isDeletionScheduled] of section 4.2: it reads the last operation. *)
Definition isDeletionScheduled (last : Operation) : bool :=
  negb (bool_decide (DeletionScheduled last = 0)).

(** [isReschedule] of section 4.2. *)
Definition isReschedule (last new : Operation) : bool :=
  Reschedule last && Reschedule new.

(** The decision table of section 4.2, row by row. *)
Definition decisionTable (lastType newType : OperationCategory)
    (inProgress deletionScheduled reschedule : bool) : Verdict :=
  match lastType, newType with
  | CREATE, CREATE =>
      if inProgress && negb deletionScheduled && negb reschedule then Reject else Admit
  | CREATE, UPDATE => if inProgress then Reject else Admit
  | CREATE, DELETE => Admit
  | UPDATE, CREATE => if inProgress then Reject else Admit
  | UPDATE, UPDATE =>
      if inProgress && negb deletionScheduled && negb reschedule then Reject else Admit
  | UPDATE, DELETE => Admit
  | DELETE, CREATE => if inProgress || deletionScheduled then Reject else Admit
  | DELETE, UPDATE => if inProgress || deletionScheduled then Reject else Admit
  | DELETE, DELETE =>
      if inProgress && negb deletionScheduled && negb reschedule then Reject else Admit
  | _, _ => UnknownType
  end.

(** The error, if any, the fault script holds for the next repository
    call. *)
Definition nextCallFails (r : Repository) : option error :=
  match head (faults r) with
  | Some (Some text) => Some (ErrorString text)
  | _ => None
  end.

Definition storedOperation (id : string) (w : World) : option Operation :=
  find (hasID id) (operations (repository w)).

Definition storedState (id : string) (w : World) : option OperationState :=
  match storedOperation id w with
  | Some o => Some (State o)
  | None => None
  end.

Definition storedErrors (id : string) (w : World) : option string :=
  match storedOperation id w with
  | Some o => Some (Errors o)
  | None => None
  end.

Definition storedReady (objectType : ObjectType) (id : string) (w : World)
  : option bool :=
  objects (repository w) !! (objectType, id).

(** What the world keeps outside the two tables. *)
Definition sameShell (w w' : World) : Prop :=
  workers w' = workers w ∧ wg w' = wg w ∧ goroutines w' = goroutines w
  ∧ smCtxErr w' = smCtxErr w ∧ clock (repository w') = clock (repository w).

(** Writing the [Ready] column of the row with key [k], if there is one. *)
Definition setReadyKey (ready : bool) (k : ObjectType * string)
    (m : gmap (ObjectType * string) bool) : gmap (ObjectType * string) bool :=
  match m !! k with
  | Some _ => <[k := ready]> m
  | None => m
  end.

Definition setReadyKeys (ready : bool) (ks : list (ObjectType * string))
    (m : gmap (ObjectType * string) bool) : gmap (ObjectType * string) bool :=
  foldl (fun m k => setReadyKey ready k m) m ks.

(** The keys of the transitive resources whose op-type is CREATE. *)
Definition createKeys (resources : list RelatedType) : list (ObjectType * string) :=
  map (fun trR => (rt_Type trR, rt_ID trR))
    (filter (fun trR => rt_OperationType trR = CREATE) resources).

(** [o'] is [o] up to the two fields [updateOperationState] writes. *)
Definition sameButStateErrors (o o' : Operation) : Prop :=
  ID o' = ID o ∧ UpdatedAt o' = UpdatedAt o ∧ Type_ o' = Type_ o
  ∧ ResourceID o' = ResourceID o ∧ ResourceType o' = ResourceType o
  ∧ Reschedule o' = Reschedule o ∧ DeletionScheduled o' = DeletionScheduled o
  ∧ TransitiveResources o' = TransitiveResources o.

(** [finalState] of the success path in the words of section 4.5. *)
Definition specFinalState (op : Operation) : OperationState :=
  if decide (Type_ op ≠ DELETE ∧ DeletionScheduled op ≠ 0) then FAILED
  else SUCCEEDED.

(** [isMitigationRequired] of section 4.5. *)
Definition isMitigationRequired (s : Scheduler) (now : Time) (op : Operation)
  : Prop :=
  DeletionScheduled op ≠ 0
  ∧ now < DeletionScheduled op + reconciliationOperationTimeout s
  ∧ State op ≠ SUCCEEDED.

(** The world once [ReschedulingDelay] has passed. *)
Definition delayed (s : Scheduler) (w : World) : World :=
  with_repository
    (with_clock (clock (repository w) + reschedulingDelay s) (repository w)) w.

(** The value a computation returned, if it did not panic. *)
Definition returned {A : Type} (r : Result A) : option A :=
  match r with
  | Returned a _ => Some a
  | Panicked _ _ => None
  end.

(** ** Concrete data for the examples *)

Module Demo.
Definition externals : Externals := {|
  OperationTypeName := "/v1/operations";
  Validate := fun _ => None;
  opcontext_Set := fun _ => None;
  ToHTTPError := fun e =>
    match e with
    | HTTPError _ _ _ => e
    | ErrorString text => HTTPError "InternalServerError" text 500
    | ErrNotFoundInStorage => HTTPError "NotFound" "not found" 404
    | ErrAlreadyExistsInStorage => HTTPError "Conflict" "unique constraint violation" 409
    end;
  json_Marshal := fun e =>
    match e with
    | HTTPError t d _ => inl ("{error:" +:+ t +:+ ",description:" +:+ d +:+ "}")
    | _ => inr (ErrorString "json: unsupported value")
    end;
  HandleStorageError := fun e entity =>
    match e with
    | ErrNotFoundInStorage => HTTPError "NotFound" ("could not find " +:+ entity) 404
    | ErrAlreadyExistsInStorage => HTTPError "Conflict" ("found conflicting " +:+ entity) 409
    | _ => ErrorString ("unexpected error while working with " +:+ entity)
    end;
  sentinelText := fun e =>
    match e with
    | ErrNotFoundInStorage => "not found"
    | ErrAlreadyExistsInStorage => "unique constraint violation"
    | ErrorString text => text
    | HTTPError _ d _ => d
    end
|}.

Definition scheduler : Scheduler := mkScheduler 1 60 600 1.

(** The operation of scenario S1 of the spec. *)
Definition o1 : Operation :=
  mkOperation "o1" 100 CREATE IN_PROGRESS "r1" "binding" false 0 "" [].

Definition binding (ready : bool) : Object := mkObject "r1" "binding" ready.

Definition world (ops : list Operation) (objs : list Object)
    (script : list (option string)) (busy : nat) : World :=
  mkWorld
    (mkRepository ops
       (list_to_map (map (fun o => ((GetType o, GetID o), Ready o)) objs))
       script 100)
    busy (Z.of_nat busy) [] None.
End Demo.

(** ** Construction, runs of the scheduler and the test helper *)



(** The action [repository.Create(ctx, obj)]. *)
Definition createAction (obj : Object) : storageAction :=
  fun r =>
    let '(res, r') := CreateResource obj r in
    match res with
    | inl created => (ActionReturned (Some created) None, r')
    | inr err => (ActionReturned None (Some err), r')
    end.

(** The jobs started between two worlds, with the slots and the wait
    group counts they took. *)
Definition spawned (w w' : World) (jobs : list Job) : Prop :=
  goroutines w' = (goroutines w ++ jobs)%list
  ∧ workers w' = (workers w + length jobs)%nat
  ∧ wg w' = wg w + Z.of_nat (length jobs)
  ∧ smCtxErr w' = smCtxErr w.

Definition noFaults (w : World) : Prop := faults (repository w) = [].

(** The world with another table of operations, or of resources. *)
Definition withOperations (ops : list Operation) (w : World) : World :=
  with_repository (with_tables ops (objects (repository w)) (repository w)) w.

Definition withObjects (objs : gmap (ObjectType * string) bool) (w : World)
  : World :=
  with_repository (with_tables (operations (repository w)) objs (repository w)) w.

(** The operation as [updateOperationState] leaves it in memory when the
    error, if any, marshals to [payload]. *)
Definition afterStateWrite (state : OperationState) (payload : option string)
    (o : Operation) : Operation :=
  match payload with
  | Some bytes =>
      if bool_decide (Errors o = "") then with_Errors bytes (with_State state o)
      else with_State state o
  | None => with_State state o
  end.

(** The record the store keeps after an update at time [now]. *)
Definition storedAfterWrite (now : Time) (state : OperationState)
    (payload : option string) (o : Operation) : Operation :=
  with_UpdatedAt now (afterStateWrite state payload o).

Section Runs.
Context `{Externals}.

(** What a scheduler and its callers may do next: schedule an operation
    asynchronously, schedule one synchronously, or let the goroutine that
    was started first run to its end. *)
Inductive step (s : Scheduler) : World -> World -> Prop :=
| step_async (operation : Operation) (action : storageAction) (w : World) :
    step s w (finalWorld (ScheduleAsyncStorageAction s operation action w))
| step_sync (operation : Operation) (action : storageAction) (w : World) :
    step s w (finalWorld (ScheduleSyncStorageAction s operation action w))
| step_run (w : World) :
    step s w (finalWorld (runGoroutine s w)).

(** [CreateBinding] of [test/common/service_binding.go].  The two ids are
    the results of [uuid.NewV4]; [ServiceBindingType] is a constant of the
    types package; ginkgo's [Fail] panics with its message.  Of the binding
    the model keeps the id, the type and [Ready]. *)
Definition CreateBinding (s : Scheduler) (ServiceBindingType : ObjectType)
    (operationID bindingID : string) : M Object :=
  now ← timeNow;
  let operation :=
    mkOperation operationID now CREATE IN_PROGRESS bindingID ServiceBindingType
      false 0 "" [] in
  let binding := mkObject bindingID ServiceBindingType true in
  '(_, err) ← ScheduleSyncStorageAction s operation (createAction binding);
  match err with
  | Some _ => panic "failed to create binding with name test-service-binding"
  | None => mret binding
  end.
End Runs.

(** An action that does nothing and reports no object, and a second create
    on the demo binding. *)
Definition noAction : storageAction := fun r => (ActionReturned None None, r).

Definition o2 : Operation :=
  mkOperation "o2" 130 CREATE IN_PROGRESS "r1" "binding" false 0 "" [].

(** Collaborators that let an operation down: the operation with id
    "detached" cannot be attached to a context, and an HTTP error with
    status code 0 does not marshal. *)
Module Faulty.
Definition externals : Externals := {|
  OperationTypeName := "/v1/operations";
  Validate := fun _ => None;
  opcontext_Set := fun o =>
    if bool_decide (ID o = "detached")
    then Some (ErrorString "operation context is read-only") else None;
  ToHTTPError := fun e =>
    match e with
    | HTTPError _ _ _ => e
    | ErrorString text => HTTPError "InternalServerError" text 500
    | ErrNotFoundInStorage => HTTPError "NotFound" "not found" 404
    | ErrAlreadyExistsInStorage =>
        HTTPError "Conflict" "unique constraint violation" 409
    end;
  json_Marshal := fun e =>
    match e with
    | HTTPError t d c =>
        if bool_decide (c = 0) then inr (ErrorString "json: unsupported value")
        else inl ("{error:" +:+ t +:+ ",description:" +:+ d +:+ "}")
    | _ => inr (ErrorString "json: unsupported value")
    end;
  HandleStorageError := fun e entity =>
    ErrorString ("storage error while working with " +:+ entity);
  sentinelText := fun e =>
    match e with
    | ErrNotFoundInStorage => "not found"
    | ErrAlreadyExistsInStorage => "unique constraint violation"
    | ErrorString text => text
    | HTTPError _ d _ => d
    end
|}.

Definition detached : Operation :=
  mkOperation "detached" 100 UPDATE IN_PROGRESS "r1" "binding" false 0 "" [].
End Faulty.

(** ** Properties *)

Section Properties.
Context `{Externals}.

(** C2: for every last and new operation the gate rejects with
    ConcurrentOperationInProgress exactly where the decision table of the
    spec says R, admits where it says admit, and answers with the unknown
    type error when either type is none of CREATE, UPDATE, DELETE. *)
Theorem checkForConcurrentOperations_decision_table
    (s : Scheduler) (now : Time) (new last : Operation) :
  match decisionTable (Type_ last) (Type_ new)
          (isLastInProgress s now last) (isDeletionScheduled last)
          (isReschedule last new) with
  | Reject =>
      ∃ description,
        checkForConcurrentOperations s now new last
        = Some (HTTPError "ConcurrentOperationInProgress" description 422)
  | Admit => checkForConcurrentOperations s now new last = None
  | UnknownType =>
      ∃ t, (t = Type_ last ∨ t = Type_ new)
           ∧ (∀ c, c ∈ [CREATE; UPDATE; DELETE] → t ≠ c)
           ∧ checkForConcurrentOperations s now new last
             = Some (ErrorString
                 ("operation type " +:+ CategoryString t +:+ " is unknown type"))
  end.
Proof.
  unfold checkForConcurrentOperations, isLastInProgress, isDeletionScheduled,
    isReschedule, IsZero, Before, Add, ConcurrentOperationInProgress, unknownType.
  set (p := bool_decide (State last = IN_PROGRESS)
            && bool_decide (now < UpdatedAt last + actionTimeout s)).
  set (d := negb (bool_decide (DeletionScheduled last = 0))).
  set (r := Reschedule last && Reschedule new).
  assert (Hother : ∀ name c,
    c ∈ [CREATE; UPDATE; DELETE] → OtherCategory name ≠ c).
  { intros name c Hc. rewrite !elem_of_cons in Hc.
    destruct Hc as [->|[->|[->|Hc]]]; try discriminate.
    by apply elem_of_nil in Hc. }
  destruct (Type_ last) eqn:Hl, (Type_ new) eqn:Hn; simpl;
    try (destruct p, d, r; simpl; eauto; fail);
    try (eexists; split; [right; reflexivity | split; [by apply Hother | reflexivity]]);
    try (eexists; split; [left; reflexivity | split; [by apply Hother | reflexivity]]).
Qed.

(** *** Repository calls *)

Lemma repo_call {A : Type} (body : Repository -> (A + error) * Repository)
    (w : World) :
  repo (call body) w
  = match nextCallFails (repository w) with
    | Some e => Returned (inr e) (with_repository (consumeFault (repository w)) w)
    | None =>
        Returned (body (consumeFault (repository w))).1
          (with_repository (body (consumeFault (repository w))).2 w)
    end.
Proof.
  unfold repo, call, nextCallFails.
  destruct (head (faults (repository w))) as [[text|]|]; try reflexivity;
    destruct (body (consumeFault (repository w))); reflexivity.
Qed.

Lemma find_replaceOperation (o : Operation) (l : list Operation) :
  find (hasID (ID o)) l ≠ None →
  find (hasID (ID o)) (replaceOperation o l) = Some o.
Proof.
  induction l as [|x l IH]; simpl; [congruence|].
  destruct (hasID (ID o) x) eqn:Hx; simpl.
  - intros _. unfold hasID. by rewrite bool_decide_eq_true_2.
  - rewrite Hx. exact IH.
Qed.

Lemma length_replaceOperation (o : Operation) (l : list Operation) :
  length (replaceOperation o l) = length l.
Proof.
  induction l as [|x l IH]; simpl; [reflexivity|].
  destruct (hasID (ID o) x); simpl; congruence.
Qed.

(** *** Writing the Ready column *)

Lemma sameShell_refl (w : World) : sameShell w w.
Proof. by unfold sameShell. Qed.

Lemma sameShell_trans (w1 w2 w3 : World) :
  sameShell w1 w2 → sameShell w2 w3 → sameShell w1 w3.
Proof. unfold sameShell. intuition congruence. Qed.

Lemma fetchAndUpdateResource_spec (objectID : string) (objectType : ObjectType)
    (ready : bool) (w : World) :
  ∃ err w',
    fetchAndUpdateResource objectID objectType (SetReady ready) w = Returned err w'
    ∧ sameShell w w'
    ∧ operations (repository w') = operations (repository w)
    ∧ (err = None →
       objects (repository w')
       = setReadyKey ready (objectType, objectID) (objects (repository w))).
Proof.
  unfold fetchAndUpdateResource, mbind, M_bind, GetResource.
  rewrite repo_call.
  destruct (nextCallFails (repository w)) as [e|] eqn:Hf1.
  - unfold nextCallFails in Hf1.
    destruct (head (faults (repository w))) as [[text|]|]; try discriminate.
    injection Hf1 as <-. simpl.
    eexists _, _. split; [reflexivity|].
    repeat split; simpl; discriminate.
  - simpl. unfold setReadyKey.
    destruct (objects (repository w) !! (objectType, objectID)) as [flag|] eqn:Hk;
      simpl.
    + unfold updateResource, mbind, M_bind, UpdateResource. simpl.
      rewrite repo_call. simpl.
      destruct (nextCallFails (consumeFault (repository w))) as [e|] eqn:Hf2;
        simpl.
      * eexists _, _. split; [reflexivity|]. repeat split; simpl; discriminate.
      * rewrite Hk. simpl. eexists _, _. split; [reflexivity|].
        repeat split; simpl; reflexivity.
    + eexists _, _. split; [reflexivity|]. repeat split; simpl; reflexivity.
Qed.

Lemma updateTransitiveResources_spec (resources : list RelatedType)
    (ready : bool) (w : World) :
  ∃ err w',
    updateTransitiveResources resources (SetReady ready) w = Returned err w'
    ∧ sameShell w w'
    ∧ operations (repository w') = operations (repository w)
    ∧ (err = None →
       objects (repository w')
       = setReadyKeys ready (createKeys resources) (objects (repository w))).
Proof.
  revert w. induction resources as [|trR rest IH]; intros w; simpl.
  - eexists _, _. split; [reflexivity|].
    split; [apply sameShell_refl|]. split; reflexivity.
  - unfold createKeys. rewrite filter_cons.
    destruct (decide (rt_OperationType trR = CREATE)) as [Hc|Hc].
    + rewrite bool_decide_eq_true_2 by done. unfold mbind, M_bind.
      destruct (fetchAndUpdateResource_spec (rt_ID trR) (rt_Type trR) ready w)
        as (err & w1 & -> & Hsh & Hops & Hobj).
      destruct err as [e|].
      * eexists _, _. split; [reflexivity|]. repeat split; try apply Hsh; try done.
      * destruct (IH w1) as (err & w2 & -> & Hsh2 & Hops2 & Hobj2).
        eexists _, _. split; [reflexivity|].
        split; [by eapply sameShell_trans|]. split; [congruence|].
        intros ->. simpl. unfold setReadyKeys in *. simpl.
        rewrite Hobj2 by done. by rewrite Hobj.
    + rewrite bool_decide_eq_false_2 by done.
      destruct (IH w) as (err & w2 & -> & Hsh2 & Hops2 & Hobj2).
      eexists _, _. split; [reflexivity|]. repeat split; try apply Hsh2; done.
Qed.

Lemma setReadyKey_lookup (ready : bool) (k k' : ObjectType * string)
    (m : gmap (ObjectType * string) bool) :
  setReadyKey ready k m !! k'
  = if decide (k = k') then (fun _ => ready) <$> m !! k' else m !! k'.
Proof.
  unfold setReadyKey. destruct (decide (k = k')) as [->|Hne].
  - destruct (m !! k') eqn:Hk; simpl; [apply lookup_insert_eq | exact Hk].
  - destruct (m !! k) eqn:Hk; [by apply lookup_insert_ne | reflexivity].
Qed.

Lemma setReadyKeys_lookup (ready : bool) (ks : list (ObjectType * string))
    (k : ObjectType * string) (m : gmap (ObjectType * string) bool) :
  setReadyKeys ready ks m !! k
  = if decide (k ∈ ks) then (fun _ => ready) <$> m !! k else m !! k.
Proof.
  revert m. induction ks as [|k0 ks IH]; intros m; simpl.
  - destruct (decide (k ∈ [])) as [Hin|_]; [by apply elem_of_nil in Hin | done].
  - unfold setReadyKeys in *. simpl. rewrite IH, setReadyKey_lookup.
    destruct (decide (k ∈ k0 :: ks)) as [Hin|Hin];
      destruct (decide (k ∈ ks)) as [Hin'|Hin'];
      destruct (decide (k0 = k)) as [->|Hne];
      try (destruct (m !! k); reflexivity).
    + apply elem_of_cons in Hin as [Heq|Hin]; [by subst | done].
    + destruct Hin. by right.
    + destruct Hin. by right.
    + destruct Hin. by left.
Qed.

Lemma elem_of_createKeys (trR : RelatedType) (resources : list RelatedType) :
  trR ∈ resources → rt_OperationType trR = CREATE →
  (rt_Type trR, rt_ID trR) ∈ createKeys resources.
Proof.
  intros Hin Hc. unfold createKeys.
  apply (list_elem_of_fmap_2 (fun trR => (rt_Type trR, rt_ID trR))).
  by apply list_elem_of_filter.
Qed.

(** *** Writing the operation state *)

Lemma length_zero_empty (x : string) : String.length x = 0%nat ↔ x = "".
Proof. destruct x; simpl; split; congruence. Qed.

Lemma updateOperationState_spec (operation : Operation)
    (state : OperationState) (opErr : option error) (w : World) :
  ∃ operation' err w',
    updateOperationState (Some operation) state opErr w
    = Returned (operation', err) w'
    ∧ sameShell w w'
    ∧ objects (repository w') = objects (repository w)
    ∧ State operation' = state
    ∧ sameButStateErrors operation operation'
    ∧ (Errors operation' = Errors operation
       ∨ (Errors operation = ""
          ∧ ∃ e, opErr = Some e
                 ∧ json_Marshal (ToHTTPError e) = inl (Errors operation')))
    ∧ match err with
      | None =>
          storedOperation (ID operation) w ≠ None
          ∧ operations (repository w')
            = replaceOperation
                (with_UpdatedAt (clock (repository w)) operation')
                (operations (repository w))
      | Some _ => operations (repository w') = operations (repository w)
      end.
Proof.
  unfold updateOperationState.
  assert (Hwrite : ∀ o : Operation,
    ∃ err w',
      (res ← repo (UpdateOperation o);
       match res with
       | inr err =>
           mret (o, Some (ErrorString
             ("failed to update state of operation with id " +:+ ID o
              +:+ " to " +:+ StateString state +:+ ": " +:+ Error err)))
       | inl _ => mret (o, None)
       end) w = Returned (o, err) w'
      ∧ sameShell w w'
      ∧ objects (repository w') = objects (repository w)
      ∧ match err with
        | None =>
            storedOperation (ID o) w ≠ None
            ∧ operations (repository w')
              = replaceOperation (with_UpdatedAt (clock (repository w)) o)
                  (operations (repository w))
        | Some _ => operations (repository w') = operations (repository w)
        end).
  { intros o. unfold mbind, M_bind, UpdateOperation. rewrite repo_call.
    destruct (nextCallFails (repository w)) as [e|]; simpl.
    - eexists _, _. split; [reflexivity|]. by repeat split.
    - unfold storedOperation.
      destruct (find (hasID (ID o)) (operations (repository w))) eqn:Hfind;
        simpl; eexists _, _; (split; [reflexivity|]); by repeat split. }
  destruct opErr as [e|].
  - destruct (json_Marshal (ToHTTPError e)) as [bytes|merr] eqn:Hm.
    + destruct (decide (String.length (Errors (with_State state operation)) = 0%nat))
        as [Hlen|Hlen].
      * rewrite bool_decide_eq_true_2 by done.
        destruct (Hwrite (with_Errors bytes (with_State state operation)))
          as (err & w' & -> & Hsh & Hobj & Hrow).
        eexists _, _, _. split; [reflexivity|].
        repeat split; try apply Hsh; try done.
        right. split; [by apply length_zero_empty in Hlen|]. eauto.
      * rewrite bool_decide_eq_false_2 by done.
        destruct (Hwrite (with_State state operation))
          as (err & w' & -> & Hsh & Hobj & Hrow).
        eexists _, _, _. split; [reflexivity|].
        repeat split; try apply Hsh; try done. by left.
    + eexists _, _, _. split; [reflexivity|].
      repeat split; try done. by left.
  - destruct (Hwrite (with_State state operation))
      as (err & w' & -> & Hsh & Hobj & Hrow).
    eexists _, _, _. split; [reflexivity|].
    repeat split; try apply Hsh; try done. by left.
Qed.

(** A write of an operation whose non-empty [Errors] agree with its
    stored record leaves the stored [Errors] as they are. *)
Lemma updateOperationState_storedErrors (operation : Operation)
    (state : OperationState) (opErr : option error) (w : World) :
  Errors operation ≠ "" →
  storedErrors (ID operation) w = Some (Errors operation) →
  storedErrors (ID operation)
    (finalWorld (updateOperationState (Some operation) state opErr w))
  = Some (Errors operation).
Proof.
  intros Hne Hrow.
  destruct (updateOperationState_spec operation state opErr w)
    as (op' & err & w' & -> & _ & _ & _ & Hsame & Herr & Hw).
  simpl. destruct Herr as [Heq|[Hempty _]]; [|congruence].
  destruct Hsame as (Hid & _).
  unfold storedErrors, storedOperation in *.
  destruct err as [e|].
  - by rewrite Hw.
  - destruct Hw as [Hfound ->].
    rewrite <- Hid.
    change (ID op') with (ID (with_UpdatedAt (clock (repository w)) op')).
    rewrite find_replaceOperation; [simpl; congruence|].
    simpl. by rewrite Hid.
Qed.

(** *** The success path *)

Lemma updateResource_spec (obj : Object) (ready : bool) (w : World) :
  ∃ res err w',
    updateResource (Some obj) (SetReady ready) w = Returned (res, err) w'
    ∧ sameShell w w'
    ∧ operations (repository w') = operations (repository w)
    ∧ (err = None →
       res = Some (mkObject (GetID obj) (GetType obj) ready)
       ∧ objects (repository w) !! (GetType obj, GetID obj) ≠ None
       ∧ objects (repository w')
         = <[(GetType obj, GetID obj) := ready]> (objects (repository w))).
Proof.
  unfold updateResource, mbind, M_bind, UpdateResource. simpl.
  rewrite repo_call.
  destruct (nextCallFails (repository w)) as [e|]; simpl.
  - eexists _, _, _. split; [reflexivity|]. by repeat split.
  - destruct (objects (repository w) !! (GetType obj, GetID obj)) eqn:Hk; simpl;
      eexists _, _, _; (split; [reflexivity|]); by repeat split.
Qed.

Lemma finalStateOf_spec (op : Operation) : finalStateOf op = specFinalState op.
Proof.
  unfold finalStateOf, specFinalState, IsZero.
  destruct (decide (Type_ op = DELETE)) as [Ht|Ht];
    destruct (decide (DeletionScheduled op = 0)) as [Hd|Hd].
  - rewrite !bool_decide_eq_true_2 by done. simpl.
    by rewrite decide_False by (intros [? ?]; done).
  - rewrite bool_decide_eq_true_2 by done. simpl.
    by rewrite decide_False by (intros [? ?]; done).
  - rewrite bool_decide_eq_false_2, bool_decide_eq_true_2 by done. simpl.
    by rewrite decide_False by (intros [? ?]; done).
  - rewrite !bool_decide_eq_false_2 by done. simpl.
    by rewrite decide_True by done.
Qed.

(** *** Admission *)

(** How a call may have changed the table of operations on behalf of
    [operation]: not at all, by appending it, or by replacing its
    record. *)
Lemma storeOrUpdateOperation_spec (operation : Operation)
    (lastOperation : option Operation) (w : World) :
  ∃ err w',
    storeOrUpdateOperation operation lastOperation w = Returned err w'
    ∧ sameShell w w'
    ∧ objects (repository w') = objects (repository w)
    ∧ (operations (repository w') = operations (repository w)
       ∨ (storedOperation (ID operation) w = None
          ∧ operations (repository w')
            = (operations (repository w) ++ [operation])%list)
       ∨ (storedOperation (ID operation) w ≠ None
          ∧ operations (repository w')
            = replaceOperation
                (with_UpdatedAt (clock (repository w)) operation)
                (operations (repository w)))).
Proof.
  unfold storeOrUpdateOperation, storedOperation.
  destruct (match lastOperation with
            | None => true
            | Some last => negb (bool_decide (ID operation = ID last))
            end).
  - unfold mbind, M_bind, mret, M_ret, CreateOperation. rewrite repo_call.
    destruct (nextCallFails (repository w)) as [e|]; cbn.
    + eexists _, _. split; [reflexivity|]. repeat split. by left.
    + destruct (find (hasID (ID operation)) (operations (repository w)))
        eqn:Hfind; cbn; eexists _, _; (split; [reflexivity|]); repeat split.
      * by left.
      * right. left. by split.
  - destruct (Reschedule operation || negb (IsZero (DeletionScheduled operation))).
    + unfold mbind, M_bind, mret, M_ret, UpdateOperation. rewrite repo_call.
      destruct (nextCallFails (repository w)) as [e|]; cbn.
      * eexists _, _. split; [reflexivity|]. repeat split. by left.
      * destruct (find (hasID (ID operation)) (operations (repository w)))
          eqn:Hfind; cbn; eexists _, _; (split; [reflexivity|]); repeat split.
        -- right. right. by split.
        -- by left.
    + eexists _, _. split; [reflexivity|]. repeat split. by left.
Qed.

Lemma getResourceLastOperation_spec (operation : Operation) (w : World) :
  ∃ res,
    getResourceLastOperation operation w
    = Returned res (with_repository (consumeFault (repository w)) w).
Proof.
  unfold getResourceLastOperation, mbind, M_bind, mret, M_ret, LastOperation.
  rewrite repo_call.
  destruct (nextCallFails (repository w)) as [e|]; cbn.
  - destruct (bool_decide (e = ErrNotFoundInStorage)); eauto.
  - destruct (find (hasResourceID (ResourceID operation))
                (rev (operations (repository w)))); cbn; eauto.
Qed.

Lemma executeOperationPreconditions_spec (s : Scheduler)
    (operation : Operation) (w : World) :
  ∃ err w',
    executeOperationPreconditions s operation w = Returned err w'
    ∧ sameShell w w'
    ∧ objects (repository w') = objects (repository w)
    ∧ (operations (repository w') = operations (repository w)
       ∨ (storedOperation (ID operation) w = None
          ∧ operations (repository w')
            = (operations (repository w) ++ [operation])%list)
       ∨ (storedOperation (ID operation) w ≠ None
          ∧ operations (repository w')
            = replaceOperation
                (with_UpdatedAt (clock (repository w)) operation)
                (operations (repository w)))).
Proof.
  unfold executeOperationPreconditions.
  destruct (bool_decide (State operation = SUCCEEDED)).
  { eexists _, _. split; [reflexivity|]. repeat split. by left. }
  destruct (Validate operation).
  { eexists _, _. split; [reflexivity|]. repeat split. by left. }
  unfold mbind at 1, M_bind at 1.
  destruct (getResourceLastOperation_spec operation w)
    as ([[lastOperation found] err] & ->).
  destruct err as [e|].
  { eexists _, _. split; [reflexivity|]. repeat split. by left. }
  unfold mbind at 1, M_bind at 1, timeNow.
  match goal with
  | |- context [match ?c with Some err => mret (Some err) | None => _ end] =>
      destruct c
  end.
  { eexists _, _. split; [reflexivity|]. repeat split. by left. }
  destruct (storeOrUpdateOperation_spec operation lastOperation
              (with_repository (consumeFault (repository w)) w))
    as (err & w' & -> & Hsh & Hobj & Hops).
  eexists _, _. split; [reflexivity|].
  split; [exact Hsh|]. split; [exact Hobj|]. exact Hops.
Qed.

Lemma ScheduleAsyncStorageAction_spec (s : Scheduler) (operation : Operation)
    (action : storageAction) (w : World) :
  ∃ admission w',
    ScheduleAsyncStorageAction s operation action w = Returned admission w'
    ∧ objects (repository w') = objects (repository w)
    ∧ smCtxErr w' = smCtxErr w
    ∧ clock (repository w') = clock (repository w)
    ∧ match admission with
      | None =>
          goroutines w' = (goroutines w ++ [mkJob operation action])%list
          ∧ workers w' = S (workers w) ∧ wg w' = wg w + 1
      | Some _ =>
          goroutines w' = goroutines w ∧ workers w' = workers w ∧ wg w' = wg w
      end
    ∧ (operations (repository w') = operations (repository w)
       ∨ (storedOperation (ID operation) w = None
          ∧ operations (repository w')
            = (operations (repository w) ++ [operation])%list)
       ∨ (storedOperation (ID operation) w ≠ None
          ∧ operations (repository w')
            = replaceOperation
                (with_UpdatedAt (clock (repository w)) operation)
                (operations (repository w)))).
Proof.
  unfold ScheduleAsyncStorageAction, trySendWorker.
  unfold mbind at 1, M_bind at 1.
  destruct (bool_decide (workers w < poolSize s)%nat).
  - unfold mbind at 1, M_bind at 1.
    destruct (executeOperationPreconditions_spec s operation
                (with_workers (S (workers w)) w))
      as (err & w1 & -> & (Hw & Hg & Hgo & Hdone & Hclock) & Hobj & Hops).
    cbn in Hw, Hg, Hgo, Hdone, Hclock, Hobj, Hops.
    destruct err as [e|]; cbn; eexists _, _; (split; [reflexivity|]); cbn.
    + rewrite Hw. repeat split; try done.
    + repeat split; try done. by rewrite Hgo.
      by rewrite Hg.
  - eexists _, _. split; [reflexivity|]. repeat split. by left.
Qed.

(** *** The failure path *)

Lemma failureTransaction_spec (actionError : error) (opAfterJob : Operation)
    (w : World) :
  ∃ failedOp err w',
    failureTransaction actionError opAfterJob w = Returned (failedOp, err) w'
    ∧ sameShell w w'
    ∧ (Errors opAfterJob ≠ "" →
       storedErrors (ID opAfterJob) w = Some (Errors opAfterJob) →
       storedErrors (ID opAfterJob) w' = Some (Errors opAfterJob))
    ∧ (err = None →
       State failedOp = FAILED
       ∧ sameButStateErrors opAfterJob failedOp
       ∧ (Errors failedOp = Errors opAfterJob
          ∨ (Errors opAfterJob = ""
             ∧ json_Marshal (ToHTTPError actionError) = inl (Errors failedOp)))
       ∧ storedOperation (ID opAfterJob) w'
         = Some (with_UpdatedAt (clock (repository w)) failedOp)
       ∧ objects (repository w')
         = if bool_decide (Type_ opAfterJob = CREATE)
              && bool_decide (State opAfterJob = FAILED)
           then setReadyKeys false (createKeys (TransitiveResources opAfterJob))
                  (setReadyKey false (ResourceType opAfterJob, ResourceID opAfterJob)
                     (objects (repository w)))
           else objects (repository w)).
Proof.
  unfold failureTransaction.
  assert (Hwrite : ∀ w1 : World,
    sameShell w w1 →
    operations (repository w1) = operations (repository w) →
    ∃ failedOp err w',
      ('(opAfterJob, opErr) ←
         updateOperationState (Some opAfterJob) FAILED (Some actionError);
       match opErr with
       | Some opErr =>
           mret (opAfterJob, Some (ErrorString
             ("setting new operation state failed: " +:+ Error opErr)))
       | None => mret (opAfterJob, None)
       end) w1 = Returned (failedOp, err) w'
      ∧ sameShell w w'
      ∧ (Errors opAfterJob ≠ "" →
         storedErrors (ID opAfterJob) w = Some (Errors opAfterJob) →
         storedErrors (ID opAfterJob) w' = Some (Errors opAfterJob))
      ∧ (err = None →
         State failedOp = FAILED
         ∧ sameButStateErrors opAfterJob failedOp
         ∧ (Errors failedOp = Errors opAfterJob
            ∨ (Errors opAfterJob = ""
               ∧ json_Marshal (ToHTTPError actionError) = inl (Errors failedOp)))
         ∧ storedOperation (ID opAfterJob) w'
           = Some (with_UpdatedAt (clock (repository w)) failedOp)
         ∧ objects (repository w') = objects (repository w1))).
  { intros w1 Hsh1 Hops1. unfold mbind, M_bind, mret, M_ret.
    pose proof (updateOperationState_storedErrors opAfterJob FAILED
                  (Some actionError) w1) as Hkeep.
    destruct (updateOperationState_spec opAfterJob FAILED (Some actionError) w1)
      as (op' & err & w2 & Heq & Hsh2 & Hobj & Hst & Hsame & Herr & Hw).
    rewrite Heq in Hkeep |- *. cbn in Hkeep.
    assert (Hkeep' : Errors opAfterJob ≠ "" →
              storedErrors (ID opAfterJob) w = Some (Errors opAfterJob) →
              storedErrors (ID opAfterJob) w2 = Some (Errors opAfterJob)).
    { intros Hne Hrow. apply Hkeep; [done|].
      unfold storedErrors, storedOperation in *. by rewrite Hops1. }
    destruct err as [e|]; eexists _, _, _; (split; [reflexivity|]);
      (split; [by eapply sameShell_trans|]); (split; [exact Hkeep'|]);
      [discriminate|].
    intros _. split; [exact Hst|]. split; [exact Hsame|].
    split.
    { destruct Herr as [?|[? (e & [= <-] & ?)]]; [by left | by right]. }
    split; [|exact Hobj].
    destruct Hw as [Hfound Hops]. destruct Hsame as (Hid & _).
    destruct Hsh1 as (_ & _ & _ & _ & Hclock).
    unfold storedOperation in *. rewrite Hops, Hclock, <- Hid.
    change (ID op') with (ID (with_UpdatedAt (clock (repository w)) op')) at 1.
    apply find_replaceOperation. cbn. by rewrite Hid. }
  unfold mbind at 1, M_bind at 1.
  destruct (bool_decide (Type_ opAfterJob = CREATE)
            && bool_decide (State opAfterJob = FAILED)).
  - unfold mbind at 1, M_bind at 1.
    destruct (fetchAndUpdateResource_spec (ResourceID opAfterJob)
                (ResourceType opAfterJob) false w)
      as (err1 & w1 & -> & Hsh1 & Hops1 & Hobj1).
    destruct err1 as [e1|].
    { unfold mret, M_ret. eexists _, _, _. split; [reflexivity|].
      split; [exact Hsh1|]. split; [|discriminate].
      intros _. unfold storedErrors, storedOperation. by rewrite Hops1. }
    destruct (updateTransitiveResources_spec
                (TransitiveResources opAfterJob) false w1)
      as (err2 & w2 & -> & Hsh2 & Hops2 & Hobj2).
    destruct err2 as [e2|].
    { unfold mret, M_ret. eexists _, _, _. split; [reflexivity|].
      split; [by eapply sameShell_trans|]. split; [|discriminate].
      intros _. unfold storedErrors, storedOperation. by rewrite Hops2, Hops1. }
    destruct (Hwrite w2) as (failedOp & err & w' & -> & Hsh & Hkeep & Hok).
    { by eapply sameShell_trans. }
    { congruence. }
    eexists _, _, _. split; [reflexivity|]. split; [exact Hsh|].
    split; [exact Hkeep|]. intros Herr.
    destruct (Hok Herr) as (? & ? & ? & ? & Hobj).
    do 4 (split; [done|]).
    by rewrite Hobj, (Hobj2 eq_refl), (Hobj1 eq_refl).
  - unfold mret at 1, M_ret at 1.
    destruct (Hwrite w) as (failedOp & err & w' & -> & Hsh & Hkeep & Hok).
    { apply sameShell_refl. }
    { reflexivity. }
    eexists _, _, _. split; [reflexivity|]. split; [exact Hsh|].
    split; [exact Hkeep|]. exact Hok.
Qed.

(** C7: when the buffer of the worker channel is full, asynchronous
    scheduling returns ServiceUnavailable and leaves the world as it was:
    no operation is created or updated, no goroutine is started, no slot
    is taken and the wait group is not touched. *)
Theorem ScheduleAsyncStorageAction_saturated
    (s : Scheduler) (operation : Operation) (action : storageAction) (w : World) :
  (poolSize s ≤ workers w)%nat →
  ScheduleAsyncStorageAction s operation action w
  = Returned
      (Some (HTTPError "ServiceUnavailable"
         "Failed to schedule job. Server is busy - try again in a few minutes."
         503)) w.
Proof.
  intros Hfull. unfold ScheduleAsyncStorageAction, mbind, M_bind, trySendWorker.
  rewrite bool_decide_eq_false_2 by lia. reflexivity.
Qed.

(** C5, amended: an admitted operation is stored by this rule.  If there
    is no last operation or the ids differ, a new record is appended; else
    if the new operation is a reschedule or the new operation itself has a
    deletion scheduled, its record is replaced in place; else the call
    fails with "operation with this id was already executed" and the
    world is as before. *)
Theorem storeOrUpdateOperation_decision
    (operation : Operation) (lastOperation : option Operation) (w : World) :
  nextCallFails (repository w) = None →
  let r := storeOrUpdateOperation operation lastOperation w in
  let ops := operations (repository w) in
  let ops' := operations (repository (finalWorld r)) in
  if match lastOperation with
     | None => true
     | Some last => bool_decide (ID operation ≠ ID last)
     end
  then
    storedOperation (ID operation) w = None →
    returned r = Some None ∧ ops' = (ops ++ [operation])%list
  else if Reschedule operation || bool_decide (DeletionScheduled operation ≠ 0)
  then
    storedOperation (ID operation) w ≠ None →
    returned r = Some None
    ∧ ops' = replaceOperation (with_UpdatedAt (clock (repository w)) operation) ops
    ∧ length ops' = length ops
    ∧ storedOperation (ID operation) (finalWorld r)
      = Some (with_UpdatedAt (clock (repository w)) operation)
  else
    r = Returned (Some (ErrorString "operation with this id was already executed")) w.
Proof.
  intros Hpass r ops ops'. subst r ops ops'.
  unfold storeOrUpdateOperation, IsZero, storedOperation.
  assert (Hcond :
    match lastOperation with
    | None => true
    | Some last => negb (bool_decide (ID operation = ID last))
    end
    = match lastOperation with
      | None => true
      | Some last => bool_decide (ID operation ≠ ID last)
      end).
  { destruct lastOperation as [last|]; [|reflexivity].
    destruct (decide (ID operation = ID last)) as [Heq|Hne].
    - rewrite bool_decide_eq_true_2 by done.
      by rewrite bool_decide_eq_false_2 by (intros Hn; by apply Hn).
    - rewrite bool_decide_eq_false_2 by done.
      by rewrite bool_decide_eq_true_2 by done. }
  rewrite Hcond. clear Hcond.
  assert (Hdel : negb (bool_decide (DeletionScheduled operation = 0))
                 = bool_decide (DeletionScheduled operation ≠ 0)).
  { destruct (decide (DeletionScheduled operation = 0)) as [Heq|Hne].
    - rewrite bool_decide_eq_true_2 by done.
      by rewrite bool_decide_eq_false_2 by (intros Hn; by apply Hn).
    - rewrite bool_decide_eq_false_2 by done.
      by rewrite bool_decide_eq_true_2 by done. }
  rewrite Hdel. clear Hdel.
  destruct (match lastOperation with
            | None => true
            | Some last => bool_decide (ID operation ≠ ID last)
            end).
  - intros Hfresh. unfold mbind, M_bind, CreateOperation.
    rewrite repo_call, Hpass. simpl. rewrite Hfresh. simpl. auto.
  - destruct (Reschedule operation || bool_decide (DeletionScheduled operation ≠ 0));
      [|reflexivity].
    intros Hrow. unfold mbind, M_bind, UpdateOperation.
    rewrite repo_call, Hpass. simpl.
    destruct (find (hasID (ID operation)) (operations (repository w)))
      as [row|] eqn:Hfind; [|congruence].
    simpl. repeat split.
    + apply length_replaceOperation.
    + apply (find_replaceOperation
               (with_UpdatedAt (clock (repository w)) operation)).
      simpl. congruence.
Qed.

(** C9: when the action returned a nil error and the re-fetched operation
    has Reschedule=true, the reconciler returns the action's object with a
    nil error and writes nothing: the stored operation, with its state,
    DeletionScheduled and Errors, and both tables are as before, so an
    operation that was IN_PROGRESS is still IN_PROGRESS. *)
Theorem handleActionResponse_reschedule_keeps_in_progress
    (s : Scheduler) (actionObject : option Object)
    (opBeforeJob opAfterJob : Operation) (w : World) :
  nextCallFails (repository w) = None →
  storedOperation (ID opBeforeJob) w = Some opAfterJob →
  Reschedule opAfterJob = true →
  opcontext_Set
    (with_TransitiveResources (TransitiveResources opBeforeJob) opAfterJob) = None →
  let r := handleActionResponse s actionObject None opBeforeJob w in
  r = Returned (actionObject, None)
        (with_repository (consumeFault (repository w)) w)
  ∧ storedOperation (ID opBeforeJob) (finalWorld r) = Some opAfterJob
  ∧ operations (repository (finalWorld r)) = operations (repository w)
  ∧ objects (repository (finalWorld r)) = objects (repository w)
  ∧ (State opAfterJob = IN_PROGRESS →
     storedState (ID opBeforeJob) (finalWorld r) = Some IN_PROGRESS).
Proof.
  intros Hpass Hrow Hres Hctx r.
  assert (Hr : r = Returned (actionObject, None)
                     (with_repository (consumeFault (repository w)) w)).
  { subst r. unfold handleActionResponse, refetchOperation, mbind, M_bind,
      GetOperation.
    rewrite repo_call, Hpass. simpl.
    unfold storedOperation in Hrow. rewrite Hrow. simpl.
    unfold addOperationToContext. rewrite Hctx. simpl.
    rewrite Hres. reflexivity. }
  rewrite Hr. simpl. repeat split; try assumption.
  intros Hstate. unfold storedState, storedOperation in *. simpl.
  rewrite Hrow. by rewrite Hstate.
Qed.


Lemma isDeleteRescheduleRequired_spec (s : Scheduler) (now : Time)
    (op : Operation) :
  isDeleteRescheduleRequired s now op = true ↔ isMitigationRequired s now op.
Proof.
  unfold isDeleteRescheduleRequired, isMitigationRequired, IsZero, Before, Add.
  rewrite !andb_true_iff, !negb_true_iff, !bool_decide_eq_false,
    bool_decide_eq_true.
  tauto.
Qed.

Lemma InTransaction_commit {X : Type} (fn : M (X * option error))
    (x : X) (w w' : World) :
  InTransaction fn w = Returned (x, None) w' → fn w = Returned (x, None) w'.
Proof.
  unfold InTransaction. destruct (fn w) as [[y [e|]] w1|v w1]; congruence.
Qed.

Lemma deletionAction_spec (opAfterJob : Operation) (r : Repository) :
  nextCallFails r = None →
  deletionAction opAfterJob r
  = (ActionReturned None None,
     with_tables (operations r)
       (delete (ResourceType opAfterJob, ResourceID opAfterJob) (objects r))
       (consumeFault r)).
Proof.
  intros Hpass. unfold deletionAction, Delete, call.
  unfold nextCallFails in Hpass.
  assert (Hbody :
    match head (faults r) with
    | Some (Some text) =>
        (@inr unit error (ErrorString text), consumeFault r)
    | _ =>
        match objects (consumeFault r)
              !! (ResourceType opAfterJob, ResourceID opAfterJob) with
        | Some _ =>
            (inl (),
             with_tables (operations (consumeFault r))
               (delete (ResourceType opAfterJob, ResourceID opAfterJob)
                  (objects (consumeFault r))) (consumeFault r))
        | None => (inr ErrNotFoundInStorage, consumeFault r)
        end
    end
    = match objects r !! (ResourceType opAfterJob, ResourceID opAfterJob) with
      | Some _ =>
          (inl (),
           with_tables (operations r)
             (delete (ResourceType opAfterJob, ResourceID opAfterJob)
                (objects r)) (consumeFault r))
      | None => (inr ErrNotFoundInStorage, consumeFault r)
      end).
  { destruct (head (faults r)) as [[text|]|]; [discriminate| |]; reflexivity. }
  rewrite Hbody. clear Hbody.
  destruct (objects r !! (ResourceType opAfterJob, ResourceID opAfterJob))
    eqn:Hk; [reflexivity|].
  rewrite bool_decide_eq_true_2 by done.
  rewrite delete_id by done. reflexivity.
Qed.

(** C3: once the failure path has committed the FAILED operation, orphan
    mitigation is required exactly when DeletionScheduled is non-zero,
    now is before DeletionScheduled plus ReconciliationOperationTimeout
    and the state is not SUCCEEDED.  If it is not required, the action
    error is returned and nothing more happens.  If it is and the delay
    passes, the same operation is handed to ScheduleAsyncStorageAction
    with the delete action; a failed admission gives a BrokerError made of
    both error texts, a successful one queues the goroutine and gives the
    action error.  The delete action removes the resource of the
    operation and returns nil for a resource that is not there. *)
Theorem handleActionResponseFailure_orphan_mitigation
    (s : Scheduler) (actionError : error) (opAfterJob failedOp : Operation)
    (w w1 : World) :
  InTransaction (failureTransaction actionError opAfterJob) w
  = Returned (failedOp, None) w1 →
  (State failedOp = FAILED ∧ ID failedOp = ID opAfterJob
   ∧ ResourceType failedOp = ResourceType opAfterJob
   ∧ ResourceID failedOp = ResourceID opAfterJob
   ∧ DeletionScheduled failedOp = DeletionScheduled opAfterJob)
  ∧ (¬ isMitigationRequired s (clock (repository w1)) failedOp →
     handleActionResponseFailure s actionError opAfterJob w
     = Returned (Some actionError) w1)
  ∧ (isMitigationRequired s (clock (repository w1)) failedOp →
     smCtxErr w1 = None →
     ∃ admission w3,
       ScheduleAsyncStorageAction s failedOp (deletionAction failedOp)
         (delayed s w1) = Returned admission w3
       ∧ handleActionResponseFailure s actionError opAfterJob w
         = Returned
             (Some match admission with
                   | None => actionError
                   | Some orphanMitigationErr =>
                       HTTPError "BrokerError"
                         ("job failed with " +:+ Error actionError +:+
                          " and orphan mitigation failed with " +:+
                          Error orphanMitigationErr) 502
                   end) w3
       ∧ (admission = None →
          goroutines w3
          = (goroutines w1 ++ [mkJob failedOp (deletionAction failedOp)])%list))
  ∧ (∀ r, nextCallFails r = None →
       deletionAction failedOp r
       = (ActionReturned None None,
          with_tables (operations r)
            (delete (ResourceType opAfterJob, ResourceID opAfterJob) (objects r))
            (consumeFault r))).
Proof.
  intros Htx.
  pose proof (InTransaction_commit _ _ _ _ Htx) as Hfn.
  destruct (failureTransaction_spec actionError opAfterJob w)
    as (op' & err & w' & Heq & _ & _ & Hok).
  rewrite Heq in Hfn. injection Hfn as -> -> ->.
  destruct (Hok eq_refl) as (Hst & Hsame & _).
  destruct Hsame as (Hid & _ & _ & Hrid & Hrty & _ & Hds & _).
  split; [by repeat split|].
  assert (Hrun : handleActionResponseFailure s actionError opAfterJob w
    = (if isDeleteRescheduleRequired s (clock (repository w1)) failedOp then
         cancelled ← waitReschedulingDelay s;
         match cancelled with
         | Some text =>
             mret (Some (ErrorString ("sm context canceled: " +:+ text)))
         | None =>
             orphanMitigationErr ←
               ScheduleAsyncStorageAction s failedOp (deletionAction failedOp);
             match orphanMitigationErr with
             | Some orphanMitigationErr =>
                 mret (Some (BrokerError actionError orphanMitigationErr))
             | None => mret (Some actionError)
             end
         end
       else mret (Some actionError)) w1).
  { unfold handleActionResponseFailure. unfold mbind at 1, M_bind at 1.
    rewrite Htx. reflexivity. }
  rewrite Hrun. clear Hrun.
  split; [|split].
  - intros Hnot.
    destruct (isDeleteRescheduleRequired s (clock (repository w1)) failedOp)
      eqn:Hreq; [|reflexivity].
    by apply isDeleteRescheduleRequired_spec in Hreq.
  - intros Hreq Hlive.
    apply isDeleteRescheduleRequired_spec in Hreq. rewrite Hreq.
    unfold mbind at 1, M_bind at 1, waitReschedulingDelay. rewrite Hlive.
    unfold mbind, M_bind at 1.
    destruct (ScheduleAsyncStorageAction_spec s failedOp
                (deletionAction failedOp) (delayed s w1))
      as (admission & w3 & Hadm & _ & _ & _ & Hgo & _).
    exists admission, w3. split; [exact Hadm|].
    unfold delayed, Add in *. rewrite Hadm.
    destruct admission as [e|]; (split; [reflexivity|]); [discriminate|].
    intros _. by destruct Hgo as (-> & _).
  - intros r Hpass. rewrite deletionAction_spec by done.
    by rewrite Hrty, Hrid.
Qed.

(** *** Errors are written once *)

Lemma find_hasID (id : string) (l : list Operation) (row : Operation) :
  find (hasID id) l = Some row → ID row = id.
Proof.
  intros Hfind. apply find_some in Hfind as [_ Hid].
  unfold hasID in Hid. by apply bool_decide_eq_true_1 in Hid.
Qed.




Lemma refetchOperation_found (operation row : Operation) (w : World) :
  nextCallFails (repository w) = None →
  storedOperation (ID operation) w = Some row →
  refetchOperation operation w
  = Returned (operation, Some row, None)
      (with_repository (consumeFault (repository w)) w).
Proof.
  intros Hpass Hrow. unfold refetchOperation, GetOperation, mbind, M_bind.
  rewrite repo_call, Hpass. unfold storedOperation in Hrow. cbn.
  by rewrite Hrow.
Qed.



(** *** Where the reconciler departs from the spec, for every input *)

(** The failure path writes Ready=false on the resource and on the
    transitive CREATE resources only for a CREATE operation that was
    already FAILED when it was re-fetched; for any other operation a
    committed failure transaction leaves the resource table as it was. *)
Lemma failureTransaction_ready (actionError : error) (opAfterJob failedOp : Operation)
    (w w' : World) :
  failureTransaction actionError opAfterJob w = Returned (failedOp, None) w' →
  storedState (ID opAfterJob) w' = Some FAILED
  ∧ (Type_ opAfterJob = CREATE → State opAfterJob = FAILED →
     (storedReady (ResourceType opAfterJob) (ResourceID opAfterJob) w ≠ None →
      storedReady (ResourceType opAfterJob) (ResourceID opAfterJob) w'
      = Some false)
     ∧ ∀ trR,
         trR ∈ TransitiveResources opAfterJob →
         rt_OperationType trR = CREATE →
         storedReady (rt_Type trR) (rt_ID trR) w ≠ None →
         storedReady (rt_Type trR) (rt_ID trR) w' = Some false)
  ∧ (¬ (Type_ opAfterJob = CREATE ∧ State opAfterJob = FAILED) →
     objects (repository w') = objects (repository w)).
Proof.
  intros Hrun.
  destruct (failureTransaction_spec actionError opAfterJob w)
    as (op' & err & w1 & Heq & _ & _ & Hok).
  rewrite Heq in Hrun. injection Hrun as -> -> ->.
  destruct (Hok eq_refl) as (Hst & _ & _ & Hrow & Hobj).
  split; [|split].
  - unfold storedState. rewrite Hrow. cbn. by rewrite Hst.
  - intros Hc Hf. rewrite !bool_decide_eq_true_2 in Hobj by done. cbn in Hobj.
    assert (Hlook : ∀ k,
      objects (repository w') !! k
      = if decide (k ∈ createKeys (TransitiveResources opAfterJob))
        then (fun _ => false)
               <$> setReadyKey false (ResourceType opAfterJob, ResourceID opAfterJob)
                     (objects (repository w)) !! k
        else setReadyKey false (ResourceType opAfterJob, ResourceID opAfterJob)
               (objects (repository w)) !! k).
    { intros k. rewrite Hobj. apply setReadyKeys_lookup. }
    unfold storedReady. split.
    + intros Hpresent. rewrite Hlook, setReadyKey_lookup.
      destruct (decide ((ResourceType opAfterJob, ResourceID opAfterJob)
                        = (ResourceType opAfterJob, ResourceID opAfterJob)))
        as [_|Hne]; [|done].
      destruct (objects (repository w)
                !! (ResourceType opAfterJob, ResourceID opAfterJob));
        [|done].
      by destruct (decide ((ResourceType opAfterJob, ResourceID opAfterJob)
                           ∈ createKeys (TransitiveResources opAfterJob))).
    + intros trR Hin Hcreate Hpresent. rewrite Hlook.
      destruct (decide ((rt_Type trR, rt_ID trR)
                        ∈ createKeys (TransitiveResources opAfterJob)))
        as [_|Hnotin]; [|by destruct Hnotin; apply elem_of_createKeys].
      rewrite setReadyKey_lookup.
      destruct (objects (repository w) !! (rt_Type trR, rt_ID trR)); [|done].
      by destruct (decide ((ResourceType opAfterJob, ResourceID opAfterJob)
                           = (rt_Type trR, rt_ID trR))).
  - intros Hn. rewrite Hobj.
    destruct (decide (Type_ opAfterJob = CREATE)) as [Hc|Hc].
    + rewrite (bool_decide_eq_false_2 (State opAfterJob = FAILED)).
      * by rewrite andb_false_r.
      * intros Hf. by apply Hn.
    + by rewrite (bool_decide_eq_false_2 (Type_ opAfterJob = CREATE)).
Qed.

(** A success path that fails rolls both tables back. *)
Lemma handleActionResponseSuccess_rollback (actionObject object : option Object)
    (opAfterJob : Operation) (e : error) (w w' : World) :
  handleActionResponseSuccess actionObject opAfterJob w
  = Returned (object, Some e) w' →
  operations (repository w') = operations (repository w)
  ∧ objects (repository w') = objects (repository w).
Proof.
  unfold handleActionResponseSuccess, mbind, M_bind, mret, M_ret, InTransaction.
  destruct (successTransaction actionObject opAfterJob w)
    as [[obj [e'|]] w1|v w1]; [|discriminate..].
  intros [= <- <- <-]. by split.
Qed.

(** The success path of every CREATE operation without a scheduled
    deletion panics on a nil action object, having written nothing. *)
Lemma handleActionResponseSuccess_nil_object (opAfterJob : Operation) (w : World) :
  Type_ opAfterJob = CREATE →
  DeletionScheduled opAfterJob = 0 →
  handleActionResponseSuccess None opAfterJob w = Panicked nilDereference w.
Proof.
  intros Hc Hd.
  destruct opAfterJob as [id updated ty st rid rty res ds errs trs].
  destruct w as [[ops objs script now] n g jobs finished].
  cbn in Hc, Hd. subst ty ds. reflexivity.
Qed.

(** Whenever the re-fetch of the deferred function fails, the goroutine
    panics with the slot still taken and the wait group not decremented. *)
Lemma workerDeferred_refetch_failure (operation : Operation) (v : string)
    (e : error) (w : World) :
  nextCallFails (repository w) = Some e →
  ∃ w',
    workerDeferred operation (Some v) w = Panicked nilDereference w'
    ∧ workers w' = workers w ∧ wg w' = wg w.
Proof.
  intros Hfail. unfold workerDeferred, refetchOperation, GetOperation.
  unfold mbind, M_bind. rewrite repo_call, Hfail.
  match goal with
  | |- context [updateOperationState (Some operation) FAILED ?err ?w1] =>
      destruct (updateOperationState_spec operation FAILED err w1)
        as (op' & err' & w' & -> & (Hw & Hg & _) & _)
  end.
  destruct err' as [e'|]; eexists; (split; [reflexivity|]); by split.
Qed.
End Properties.

(** ** The code at concrete inputs *)

Section Scenarios.
#[local] Existing Instance Demo.externals.

(** C10, at the failing input: the CREATE operation [o1] with no deletion
    scheduled, scheduled synchronously with an action that returns a nil
    object and a nil error.  The final state is SUCCEEDED, so the success
    path hands the nil object to the Ready closure, which dereferences it:
    the call panics and the stored operation stays IN_PROGRESS. *)
Theorem handleActionResponseSuccess_nil_object_panics :
  let w := Demo.world [Demo.o1] [] [] 0 in
  finalStateOf Demo.o1 = SUCCEEDED
  ∧ handleActionResponseSuccess None Demo.o1 w = Panicked nilDereference w
  ∧ ScheduleSyncStorageAction Demo.scheduler Demo.o1
      (fun r => (ActionReturned None None, r)) (Demo.world [] [] [] 0)
    = Panicked nilDereference w.
Proof. vm_compute. auto. Qed.

(** C8, at the failing input: the goroutine of [o1] holds the only worker
    slot, its action panics, and the re-fetch in the deferred function
    fails with a storage error.  The deferred function still passes the
    nil operation to [updateOperationState], which dereferences it: the
    goroutine panics again, past the release of the slot and the
    decrement of the wait group. *)
Theorem worker_panic_refetch_failure_escapes :
  let w := Demo.world [Demo.o1] [] [Some "connection refused"] 1 in
  let r := worker Demo.scheduler Demo.o1 (fun r => (ActionPanicked "boom", r)) w in
  returned r = None
  ∧ r = Panicked nilDereference (finalWorld r)
  ∧ workers (finalWorld r) = 1%nat
  ∧ wg (finalWorld r) = 1
  ∧ storedErrors "o1" (finalWorld r)
    ≠ match json_Marshal jobInterrupted with
      | inl payload => Some payload
      | inr _ => None
      end.
Proof. vm_compute. repeat split; congruence. Qed.

(** The same goroutine when the re-fetch succeeds: the operation is
    written FAILED with the job interrupted error, the slot is released
    and the wait group decremented. *)
Lemma worker_panic_recovered :
  let w := Demo.world [Demo.o1] [] [] 1 in
  let r := worker Demo.scheduler Demo.o1 (fun r => (ActionPanicked "boom", r)) w in
  returned r = Some tt
  ∧ workers (finalWorld r) = 0%nat
  ∧ wg (finalWorld r) = 0
  ∧ storedState "o1" (finalWorld r) = Some FAILED
  ∧ storedErrors "o1" (finalWorld r)
    = match json_Marshal jobInterrupted with
      | inl payload => Some payload
      | inr _ => None
      end.
Proof. vm_compute. repeat split. Qed.

(** C1, at the failing input: [o1] is a CREATE operation stored as
    IN_PROGRESS, its resource is stored with Ready=true, and the action
    returned an error.  The reconciler writes the operation as FAILED
    and leaves the resource Ready=true. *)
Theorem handleActionResponse_failed_create_keeps_ready :
  let w := Demo.world [Demo.o1] [Demo.binding true] [] 0 in
  let r := handleActionResponse Demo.scheduler None
             (Some (ErrorString "broker unreachable")) Demo.o1 w in
  returned r = Some (None, Some (ErrorString "broker unreachable"))
  ∧ storedState "o1" (finalWorld r) = Some FAILED
  ∧ storedReady "binding" "r1" (finalWorld r) = Some true.
Proof. vm_compute. repeat split. Qed.

(** C5, counterexample: the new operation has the id of the last one, is
    no reschedule and has no deletion scheduled, while the last operation
    has a deletion scheduled.  The condition the spec gives for an update
    in place holds, yet the code rejects the operation and writes
    nothing. *)
Lemma storeOrUpdateOperation_last_deletion_counterexample :
  let last := with_DeletionScheduled 50 Demo.o1 in
  let w := Demo.world [last] [] [] 0 in
  ID Demo.o1 = ID last
  ∧ Reschedule Demo.o1 || isDeletionScheduled last = true
  ∧ storeOrUpdateOperation Demo.o1 (Some last) w
    = Returned (Some (ErrorString "operation with this id was already executed")) w.
Proof. vm_compute. repeat split. Qed.

(** *** The theorems at concrete inputs *)

(** Scenario S6: the pool of size one is busy. *)
Lemma ScheduleAsyncStorageAction_saturated_witness :
  ScheduleAsyncStorageAction Demo.scheduler Demo.o1
    (fun r => (ActionReturned None None, r)) (Demo.world [] [] [] 1)
  = Returned
      (Some (HTTPError "ServiceUnavailable"
         "Failed to schedule job. Server is busy - try again in a few minutes."
         503)) (Demo.world [] [] [] 1).
Proof.
  apply (ScheduleAsyncStorageAction_saturated Demo.scheduler Demo.o1).
  vm_compute. lia.
Defined.

(** A re-drive of the stored operation [o1] with a deletion scheduled on
    the new operation: the record is replaced in place. *)
Lemma storeOrUpdateOperation_decision_witness :
  let operation := with_DeletionScheduled 50 Demo.o1 in
  let w := Demo.world [Demo.o1] [] [] 0 in
  returned (storeOrUpdateOperation operation (Some Demo.o1) w) = Some None
  ∧ operations (repository
      (finalWorld (storeOrUpdateOperation operation (Some Demo.o1) w)))
    = [operation]
  ∧ length (operations (repository
      (finalWorld (storeOrUpdateOperation operation (Some Demo.o1) w))))
    = 1%nat
  ∧ storedOperation "o1"
      (finalWorld (storeOrUpdateOperation operation (Some Demo.o1) w))
    = Some operation.
Proof.
  intros operation w.
  apply (storeOrUpdateOperation_decision operation (Some Demo.o1) w eq_refl).
  discriminate.
Defined.

(** A cooperative operation: stored with Reschedule=true, the action
    returned the binding and no error. *)
Lemma handleActionResponse_reschedule_witness :
  let stored :=
    mkOperation "o1" 100 CREATE IN_PROGRESS "r1" "binding" true 0 "" [] in
  let w := Demo.world [stored] [Demo.binding false] [] 0 in
  let r := handleActionResponse Demo.scheduler (Some (Demo.binding false)) None
             Demo.o1 w in
  r = Returned (Some (Demo.binding false), None)
        (with_repository (consumeFault (repository w)) w)
  ∧ storedOperation "o1" (finalWorld r) = Some stored
  ∧ operations (repository (finalWorld r)) = operations (repository w)
  ∧ objects (repository (finalWorld r)) = objects (repository w)
  ∧ (State stored = IN_PROGRESS →
     storedState "o1" (finalWorld r) = Some IN_PROGRESS).
Proof.
  intros stored w.
  apply (handleActionResponse_reschedule_keeps_in_progress Demo.scheduler
           (Some (Demo.binding false)) Demo.o1 stored w);
    reflexivity.
Defined.


(** Scenario S5: a failed create with a deletion scheduled ten
    nanoseconds before now; the pool has room. *)
Lemma handleActionResponseFailure_orphan_mitigation_witness :
  let op := with_DeletionScheduled 90 Demo.o1 in
  let actionError := ErrorString "broker unreachable" in
  let failedOp :=
    with_Errors "{error:InternalServerError,description:broker unreachable}"
      (with_State FAILED op) in
  let w := Demo.world [op] [Demo.binding false] [] 0 in
  let w1 := finalWorld (InTransaction (failureTransaction actionError op) w) in
  isMitigationRequired Demo.scheduler (clock (repository w1)) failedOp
  ∧ ∃ w3,
      handleActionResponseFailure Demo.scheduler actionError op w
      = Returned (Some actionError) w3
      ∧ goroutines w3 = [mkJob failedOp (deletionAction failedOp)].
Proof.
  intros op actionError failedOp w w1.
  destruct (handleActionResponseFailure_orphan_mitigation Demo.scheduler
              actionError op failedOp w w1)
    as (_ & _ & Hreq & _); [vm_compute; reflexivity|].
  assert (Hm : isMitigationRequired Demo.scheduler (clock (repository w1))
                 failedOp).
  { split; [|split];
      [vm_compute; discriminate | vm_compute; reflexivity
      | vm_compute; discriminate]. }
  split; [exact Hm|].
  destruct (Hreq Hm eq_refl) as (admission & w3 & Hadm & Hrun & Hgo).
  assert (Hnone : admission = None).
  { vm_compute in Hadm. congruence. }
  subst admission. exists w3. split; [exact Hrun|]. exact (Hgo eq_refl).
Defined.

End Scenarios.

(** ** Further properties of the scheduler *)

Section MoreProperties.
Context `{Externals}.

(** *** Slots, wait group and goroutines along the code *)

Lemma spawned_shell (w w' : World) : sameShell w w' → spawned w w' [].
Proof.
  intros (Hw & Hg & Hgo & Hctx & _). unfold spawned. cbn.
  rewrite app_nil_r, Nat.add_0_r, Z.add_0_r. done.
Qed.

Lemma spawned_trans (w1 w2 w3 : World) (jobs1 jobs2 : list Job) :
  spawned w1 w2 jobs1 → spawned w2 w3 jobs2 →
  spawned w1 w3 (jobs1 ++ jobs2).
Proof.
  intros (Hgo1 & Hw1 & Hg1 & Hc1) (Hgo2 & Hw2 & Hg2 & Hc2). unfold spawned.
  rewrite length_app, Hgo2, Hgo1, Hw2, Hw1, Hg2, Hg1, Hc2, Hc1.
  rewrite app_assoc. repeat split; lia.
Qed.

Lemma sameShell_rollback (w w1 : World) :
  sameShell w w1 → sameShell w (rollback w w1).
Proof. intros Hsh. exact Hsh. Qed.

Lemma refetchOperation_spec (operation : Operation) (w : World) :
  ∃ operation' row err w',
    refetchOperation operation w = Returned (operation', row, err) w'
    ∧ sameShell w w'
    ∧ objects (repository w') = objects (repository w)
    ∧ ((row = None ∧ err ≠ None
        ∧ (nextCallFails (repository w) ≠ None
           ∨ storedOperation (ID operation) w = None))
       ∨ (∃ r, row = Some r ∧ err = None
               ∧ nextCallFails (repository w) = None
               ∧ storedOperation (ID operation) w = Some r
               ∧ w' = with_repository (consumeFault (repository w)) w)).
Proof.
  unfold refetchOperation, GetOperation.
  unfold mbind at 1, M_bind at 1. rewrite repo_call.
  assert (Hwrite : ∀ e : error,
    nextCallFails (repository w) ≠ None
    ∨ storedOperation (ID operation) w = None →
    ∃ operation' row err w',
      (let opErr := ErrorString
         ("failed to re-fetch currently executing operation with id " +:+
          ID operation +:+ " from db: " +:+ Error e) in
       '(operation0, err) ←
          updateOperationState (Some operation) FAILED (Some opErr);
       match err with
       | Some err =>
           mret (operation0, @None Operation, Some (ErrorString
             ("setting new operation state due to err " +:+ Error opErr +:+
              " failed: " +:+ Error err)))
       | None => mret (operation0, None, Some opErr)
       end) (with_repository (consumeFault (repository w)) w)
      = Returned (operation', row, err) w'
      ∧ sameShell w w'
      ∧ objects (repository w') = objects (repository w)
      ∧ ((row = None ∧ err ≠ None
          ∧ (nextCallFails (repository w) ≠ None
             ∨ storedOperation (ID operation) w = None))
         ∨ (∃ r, row = Some r ∧ err = None
                 ∧ nextCallFails (repository w) = None
                 ∧ storedOperation (ID operation) w = Some r
                 ∧ w' = with_repository (consumeFault (repository w)) w))).
  { intros e Hwhy. cbv zeta. unfold mbind, M_bind, mret, M_ret.
    match goal with
    | |- context [updateOperationState (Some operation) FAILED ?err ?w1] =>
        destruct (updateOperationState_spec operation FAILED err w1)
          as (op' & err' & w' & -> & Hsh & Hobj & _)
    end.
    destruct err' as [e'|]; eexists _, _, _, _; (split; [reflexivity|]);
      (split; [exact Hsh|]); (split; [exact Hobj|]); left; by repeat split. }
  destruct (nextCallFails (repository w)) as [e|] eqn:Hf.
  - apply Hwrite. by left.
  - cbn [fst snd]. unfold storedOperation in *.
    change (operations (consumeFault (repository w)))
      with (operations (repository w)).
    destruct (find (hasID (ID operation)) (operations (repository w)))
      as [r|] eqn:Hfind.
    + unfold mret, M_ret. eexists _, _, _, _. split; [reflexivity|].
      split; [by repeat split|]. split; [reflexivity|].
      right. exists r. by repeat split.
    + apply Hwrite. by right.
Qed.

Lemma addOperationToContext_spec (operation : Operation) (w : World) :
  ∃ err w',
    addOperationToContext operation w = Returned err w'
    ∧ sameShell w w'
    ∧ objects (repository w') = objects (repository w)
    ∧ (opcontext_Set operation = None → err = None ∧ w' = w)
    ∧ (opcontext_Set operation ≠ None → err ≠ None).
Proof.
  unfold addOperationToContext.
  destruct (opcontext_Set operation) as [setCtxErr|].
  - unfold mbind, M_bind, mret, M_ret.
    match goal with
    | |- context [updateOperationState (Some operation) FAILED ?err ?w1] =>
        destruct (updateOperationState_spec operation FAILED err w1)
          as (op' & err' & w' & -> & Hsh & Hobj & _)
    end.
    destruct err' as [e'|]; eexists _, _; (split; [reflexivity|]);
      (split; [exact Hsh|]); (split; [exact Hobj|]); split; done.
  - eexists _, _. split; [reflexivity|].
    split; [apply sameShell_refl|]. by repeat split.
Qed.

Lemma successTransaction_shell (actionObject : option Object)
    (opAfterJob : Operation) (w : World) :
  sameShell w (finalWorld (successTransaction actionObject opAfterJob w))
  ∧ (actionObject ≠ None →
     returned (successTransaction actionObject opAfterJob w) ≠ None).
Proof.
  unfold successTransaction.
  set (finalState := finalStateOf opAfterJob).
  set (op2 := with_DeletionScheduled 0
                (if bool_decide (finalState = SUCCEEDED)
                 then with_Errors "" opAfterJob else opAfterJob)).
  assert (Hwrite : ∀ (res : option Object) (w1 : World),
    sameShell w w1 →
    sameShell w
      (finalWorld
         (('(_, err) ← updateOperationState (Some op2) finalState None;
           mret (res, err)) w1))
    ∧ returned
        (('(_, err) ← updateOperationState (Some op2) finalState None;
          mret (res, err)) w1) ≠ None).
  { intros res w1 Hsh1. unfold mbind, M_bind, mret, M_ret.
    destruct (updateOperationState_spec op2 finalState None w1)
      as (op' & err & w2 & -> & Hsh2 & _).
    split; [by eapply sameShell_trans | done]. }
  unfold mbind, M_bind, mret, M_ret in Hwrite |- *.
  destruct (bool_decide (Type_ op2 = CREATE)
            && bool_decide (finalState = SUCCEEDED)).
  - destruct actionObject as [obj|].
    + destruct (updateResource_spec obj true w)
        as (res & err & w1 & -> & Hsh1 & _).
      cbv beta iota. destruct err as [e|].
      * split; [exact Hsh1 | done].
      * destruct (updateTransitiveResources_spec (TransitiveResources op2)
                    true w1) as (err & w2 & -> & Hsh2 & _).
        cbv beta iota. destruct err as [e|].
        -- split; [by eapply sameShell_trans | done].
        -- destruct (Hwrite res w2) as [Hs Hr]; [by eapply sameShell_trans|].
           split; [exact Hs | intros _; exact Hr].
    + split; [apply sameShell_refl | done].
  - cbv beta iota.
    destruct (Hwrite actionObject w (sameShell_refl w)) as [Hs Hr].
    split; [exact Hs | intros _; exact Hr].
Qed.

Lemma handleActionResponseSuccess_shell (actionObject : option Object)
    (opAfterJob : Operation) (w : World) :
  sameShell w (finalWorld (handleActionResponseSuccess actionObject opAfterJob w))
  ∧ (actionObject ≠ None →
     returned (handleActionResponseSuccess actionObject opAfterJob w) ≠ None).
Proof.
  destruct (successTransaction_shell actionObject opAfterJob w) as [Hsh Hret].
  unfold handleActionResponseSuccess, mbind, M_bind, mret, M_ret, InTransaction.
  destruct (successTransaction actionObject opAfterJob w)
    as [[obj [e|]] w1|v w1]; cbn in *; split; try done.
Qed.
(** *** Admission, all or nothing *)

Lemma find_app_fresh (id : string) (l : list Operation) (o : Operation) :
  find (hasID id) l = None →
  find (hasID id) (l ++ [o]) = if hasID id o then Some o else None.
Proof.
  induction l as [|x l IH]; cbn; [done|].
  destruct (hasID id x); [done | exact IH].
Qed.

Lemma storeOrUpdateOperation_outcome (operation : Operation)
    (lastOperation : option Operation) (w : World) :
  ∃ err w',
    storeOrUpdateOperation operation lastOperation w = Returned err w'
    ∧ sameShell w w'
    ∧ objects (repository w') = objects (repository w)
    ∧ match err with
      | Some _ => operations (repository w') = operations (repository w)
      | None =>
          (storedOperation (ID operation) w = None
           ∧ operations (repository w')
             = (operations (repository w) ++ [operation])%list)
          ∨ (storedOperation (ID operation) w ≠ None
             ∧ operations (repository w')
               = replaceOperation
                   (with_UpdatedAt (clock (repository w)) operation)
                   (operations (repository w)))
      end.
Proof.
  unfold storeOrUpdateOperation, storedOperation.
  destruct (match lastOperation with
            | None => true
            | Some last => negb (bool_decide (ID operation = ID last))
            end).
  - unfold mbind, M_bind, mret, M_ret, CreateOperation. rewrite repo_call.
    destruct (nextCallFails (repository w)) as [e|]; cbn.
    + eexists _, _. split; [reflexivity|]. by repeat split.
    + destruct (find (hasID (ID operation)) (operations (repository w)))
        eqn:Hfind; cbn; eexists _, _; (split; [reflexivity|]);
        (split; [by repeat split|]); (split; [reflexivity|]).
      * reflexivity.
      * left. by split.
  - destruct (Reschedule operation || negb (IsZero (DeletionScheduled operation))).
    + unfold mbind, M_bind, mret, M_ret, UpdateOperation. rewrite repo_call.
      destruct (nextCallFails (repository w)) as [e|]; cbn.
      * eexists _, _. split; [reflexivity|]. by repeat split.
      * destruct (find (hasID (ID operation)) (operations (repository w)))
          eqn:Hfind; cbn; eexists _, _; (split; [reflexivity|]);
          (split; [by repeat split|]); (split; [reflexivity|]).
        -- right. by split.
        -- reflexivity.
    + eexists _, _. split; [reflexivity|]. split; [apply sameShell_refl|].
      by split.
Qed.

Lemma executeOperationPreconditions_outcome (s : Scheduler)
    (operation : Operation) (w : World) :
  ∃ err w',
    executeOperationPreconditions s operation w = Returned err w'
    ∧ sameShell w w'
    ∧ objects (repository w') = objects (repository w)
    ∧ match err with
      | Some _ => operations (repository w') = operations (repository w)
      | None =>
          State operation ≠ SUCCEEDED
          ∧ Validate operation = None
          ∧ ((storedOperation (ID operation) w = None
              ∧ operations (repository w')
                = (operations (repository w) ++ [operation])%list)
             ∨ (storedOperation (ID operation) w ≠ None
                ∧ operations (repository w')
                  = replaceOperation
                      (with_UpdatedAt (clock (repository w)) operation)
                      (operations (repository w))))
      end.
Proof.
  unfold executeOperationPreconditions.
  destruct (decide (State operation = SUCCEEDED)) as [Hs|Hs].
  { rewrite bool_decide_eq_true_2 by done.
    eexists _, _. split; [reflexivity|]. split; [apply sameShell_refl|].
    by split. }
  rewrite bool_decide_eq_false_2 by done.
  destruct (Validate operation) eqn:Hv.
  { eexists _, _. split; [reflexivity|]. split; [apply sameShell_refl|].
    by split. }
  unfold mbind at 1, M_bind at 1.
  destruct (getResourceLastOperation_spec operation w)
    as ([[lastOperation found] err] & ->).
  destruct err as [e|].
  { eexists _, _. split; [reflexivity|]. by repeat split. }
  unfold mbind at 1, M_bind at 1, timeNow.
  match goal with
  | |- context [match ?c with Some err => mret (Some err) | None => _ end] =>
      destruct c
  end.
  { eexists _, _. split; [reflexivity|]. by repeat split. }
  destruct (storeOrUpdateOperation_outcome operation lastOperation
              (with_repository (consumeFault (repository w)) w))
    as (err & w' & -> & Hsh & Hobj & Hops).
  eexists _, _. split; [reflexivity|].
  split; [exact Hsh|]. split; [exact Hobj|].
  destruct err as [e|]; [exact Hops|]. by repeat split.
Qed.

Lemma ScheduleAsyncStorageAction_outcome (s : Scheduler) (operation : Operation)
    (action : storageAction) (w : World) :
  ∃ admission w',
    ScheduleAsyncStorageAction s operation action w = Returned admission w'
    ∧ objects (repository w') = objects (repository w)
    ∧ smCtxErr w' = smCtxErr w
    ∧ clock (repository w') = clock (repository w)
    ∧ match admission with
      | Some _ =>
          goroutines w' = goroutines w ∧ workers w' = workers w
          ∧ wg w' = wg w
          ∧ operations (repository w') = operations (repository w)
      | None =>
          (workers w < poolSize s)%nat
          ∧ State operation ≠ SUCCEEDED
          ∧ Validate operation = None
          ∧ goroutines w' = (goroutines w ++ [mkJob operation action])%list
          ∧ workers w' = S (workers w) ∧ wg w' = wg w + 1
          ∧ (storedOperation (ID operation) w' = Some operation
             ∨ storedOperation (ID operation) w'
               = Some (with_UpdatedAt (clock (repository w)) operation))
      end.
Proof.
  unfold ScheduleAsyncStorageAction, trySendWorker.
  unfold mbind at 1, M_bind at 1.
  destruct (decide (workers w < poolSize s)%nat) as [Hroom|Hfull].
  - rewrite bool_decide_eq_true_2 by done.
    unfold mbind at 1, M_bind at 1.
    destruct (executeOperationPreconditions_outcome s operation
                (with_workers (S (workers w)) w))
      as (err & w1 & -> & (Hw & Hg & Hgo & Hctx & Hclock) & Hobj & Hops).
    cbn in Hw, Hg, Hgo, Hctx, Hclock, Hobj, Hops.
    destruct err as [e|]; cbn; eexists _, _; (split; [reflexivity|]); cbn.
    + rewrite Hw. by repeat split.
    + destruct Hops as (Hstate & Hvalid & Hops).
      do 3 (split; [done|]). do 3 (split; [done|]).
      split; [by rewrite Hgo|]. split; [done|]. split; [by rewrite Hg|].
      unfold storedOperation in *. cbn in Hops.
      change (operations (repository
                (with_goroutines (goroutines w1 ++ [mkJob operation action])
                   (with_wg (wg w1 + 1) w1))))
        with (operations (repository w1)).
      destruct Hops as [[Hnone ->]|[Hsome ->]].
      * left. rewrite find_app_fresh by done.
        unfold hasID. by rewrite bool_decide_eq_true_2.
      * right.
        change (ID operation)
          with (ID (with_UpdatedAt (clock (repository w)) operation)) at 1.
        by rewrite find_replaceOperation.
  - rewrite bool_decide_eq_false_2 by done.
    eexists _, _. split; [reflexivity|]. by repeat split.
Qed.

Lemma ScheduleAsyncStorageAction_account (s : Scheduler) (operation : Operation)
    (action : storageAction) (w : World) :
  ∃ admission w' jobs,
    ScheduleAsyncStorageAction s operation action w = Returned admission w'
    ∧ spawned w w' jobs
    ∧ objects (repository w') = objects (repository w)
    ∧ (jobs = [] ∨ (workers w < poolSize s)%nat ∧ length jobs = 1%nat).
Proof.
  destruct (ScheduleAsyncStorageAction_outcome s operation action w)
    as (admission & w' & Heq & Hobj & Hctx & _ & Hres).
  destruct admission as [e|].
  - destruct Hres as (Hgo & Hw & Hg & _).
    exists (Some e), w', []. split; [exact Heq|]. split; [|by split; [|left]].
    unfold spawned. cbn. rewrite app_nil_r, Nat.add_0_r, Z.add_0_r. done.
  - destruct Hres as (Hroom & _ & _ & Hgo & Hw & Hg & _).
    exists None, w', [mkJob operation action]. split; [exact Heq|].
    split; [|split; [done | right; by split]].
    unfold spawned. cbn. repeat split; [done | lia | lia | done].
Qed.
Lemma handleActionResponseFailure_account (s : Scheduler) (actionError : error)
    (opAfterJob : Operation) (w : World) :
  ∃ err w' jobs,
    handleActionResponseFailure s actionError opAfterJob w
    = Returned (Some err) w'
    ∧ spawned w w' jobs
    ∧ (jobs = [] ∨ (workers w < poolSize s)%nat ∧ length jobs = 1%nat).
Proof.
  unfold handleActionResponseFailure.
  unfold mbind at 1, M_bind at 1, InTransaction.
  destruct (failureTransaction_spec actionError opAfterJob w)
    as (failedOp & err & w1 & -> & Hsh & _).
  destruct err as [e|].
  { eexists _, _, []. split; [reflexivity|].
    split; [apply spawned_shell; exact Hsh | by left]. }
  unfold mbind at 1, M_bind at 1, timeNow.
  destruct (isDeleteRescheduleRequired s (clock (repository w1)) failedOp).
  2:{ eexists _, _, []. split; [reflexivity|].
      split; [by apply spawned_shell | by left]. }
  unfold mbind at 1, M_bind at 1, waitReschedulingDelay.
  destruct (smCtxErr w1) as [text|] eqn:Hctx.
  { eexists _, _, []. split; [reflexivity|].
    split; [by apply spawned_shell | by left]. }
  unfold mbind at 1, M_bind at 1.
  match goal with
  | |- context [ScheduleAsyncStorageAction s failedOp ?a ?w2] =>
      destruct (ScheduleAsyncStorageAction_account s failedOp a w2)
        as (admission & w3 & jobs & -> & Hsp & _ & Hjobs);
      assert (Hsp2 : spawned w w2 [])
  end.
  { destruct Hsh as (Hw & Hg & Hgo & Hc & _). unfold spawned. cbn.
    rewrite app_nil_r, Nat.add_0_r, Z.add_0_r. done. }
  pose proof (spawned_trans _ _ _ _ _ Hsp2 Hsp) as Hall. cbn in Hall.
  assert (Hroom : jobs = [] ∨ (workers w < poolSize s)%nat ∧ length jobs = 1%nat).
  { destruct Hjobs as [->|[Hlt Hlen]]; [by left | right].
    cbn in Hlt. destruct Hsh as (Hw & _). rewrite Hw in Hlt. by split. }
  destruct admission as [e|]; eexists _, _, jobs; (split; [reflexivity|]);
    by split.
Qed.

Lemma handleActionResponse_account (s : Scheduler) (actionObject : option Object)
    (actionError : option error) (opBeforeJob : Operation) (w : World) :
  ∃ jobs,
    spawned w
      (finalWorld (handleActionResponse s actionObject actionError opBeforeJob w))
      jobs
    ∧ (jobs = [] ∨ (workers w < poolSize s)%nat ∧ length jobs = 1%nat)
    ∧ (actionError = None → jobs = [])
    ∧ (actionObject ≠ None ∨ actionError ≠ None →
       returned (handleActionResponse s actionObject actionError opBeforeJob w)
       ≠ None).
Proof.
  unfold handleActionResponse, mbind, M_bind, mret, M_ret.
  destruct (refetchOperation_spec opBeforeJob w)
    as (op0 & row & err & w1 & -> & Hsh1 & _ & Hres).
  destruct Hres as [(-> & Herr & _)|(r & -> & -> & _)].
  { destruct err as [e|]; [|done].
    exists []. split; [by apply spawned_shell|].
    split; [by left|]. split; done. }
  cbv beta iota.
  match goal with
  | |- context [addOperationToContext ?o w1] =>
      destruct (addOperationToContext_spec o w1)
        as (err & w2 & -> & Hsh2 & _);
      set (opAfterJob := o)
  end.
  pose proof (sameShell_trans _ _ _ Hsh1 Hsh2) as Hsh.
  destruct err as [e|].
  { exists []. split; [by apply spawned_shell|].
    split; [by left|]. split; done. }
  destruct actionError as [actionError|].
  - destruct (handleActionResponseFailure_account s actionError opAfterJob w2)
      as (err & w3 & jobs & -> & Hsp & Hjobs).
    exists jobs. cbn.
    split; [exact (spawned_trans _ _ _ [] _ (spawned_shell _ _ Hsh) Hsp)|].
    split.
    { destruct Hjobs as [->|[Hlt Hlen]]; [by left | right].
      destruct Hsh as (Hw & _). rewrite Hw in Hlt. by split. }
    split; done.
  - destruct (Reschedule opAfterJob); cbn [negb].
    + exists []. split; [by apply spawned_shell|].
      split; [by left|]. split; done.
    + destruct (handleActionResponseSuccess_shell actionObject opAfterJob w2)
        as [Hsh3 Hret].
      exists []. split; [apply spawned_shell; by eapply sameShell_trans|].
      split; [by left|]. split; [done|].
      intros [Hobj|Hne]; [by apply Hret | done].
Qed.
Lemma ScheduleSyncStorageAction_account (s : Scheduler) (operation : Operation)
    (action : storageAction) (w : World) :
  ∃ jobs,
    spawned w (finalWorld (ScheduleSyncStorageAction s operation action w)) jobs
    ∧ (jobs = [] ∨ (workers w < poolSize s)%nat ∧ length jobs = 1%nat).
Proof.
  unfold ScheduleSyncStorageAction, mbind, M_bind, mret, M_ret.
  destruct (executeOperationPreconditions_outcome s operation w)
    as (err & w1 & -> & Hsh1 & _).
  destruct err as [e|].
  { exists []. split; [by apply spawned_shell | by left]. }
  destruct (addOperationToContext_spec operation w1)
    as (err & w2 & -> & Hsh2 & _).
  pose proof (sameShell_trans _ _ _ Hsh1 Hsh2) as Hsh.
  destruct err as [e|].
  { exists []. split; [by apply spawned_shell | by left]. }
  unfold runAction.
  destruct (action (repository w2)) as [[object actionErr|v] r].
  - destruct (handleActionResponse_account s object actionErr operation
                (with_repository r w2)) as (jobs & Hsp & Hjobs & _).
    exists jobs. split.
    + assert (Hpre : spawned w (with_repository r w2) []).
      { destruct Hsh as (Hw & Hg & Hgo & Hc & _). unfold spawned. cbn.
        rewrite app_nil_r, Nat.add_0_r, Z.add_0_r. done. }
      pose proof (spawned_trans _ _ _ _ _ Hpre Hsp) as Hall. cbn in Hall.
      destruct (handleActionResponse s object actionErr operation
                  (with_repository r w2)) as [[obj [e|]] w3|v w3]; exact Hall.
    + destruct Hjobs as [->|[Hlt Hlen]]; [by left | right].
      cbn in Hlt. destruct Hsh as (Hw & _). rewrite Hw in Hlt. by split.
  - exists []. split; [|by left].
    destruct Hsh as (Hw & Hg & Hgo & Hc & _). unfold spawned. cbn.
    rewrite app_nil_r, Nat.add_0_r, Z.add_0_r. done.
Qed.

Lemma workerBody_account (s : Scheduler) (operation : Operation)
    (action : storageAction) (w : World) :
  ∃ jobs,
    spawned w (finalWorld (workerBody s operation action w)) jobs
    ∧ (jobs = [] ∨ (workers w < poolSize s)%nat ∧ length jobs = 1%nat).
Proof.
  unfold workerBody, mbind, M_bind, mret, M_ret.
  destruct (addOperationToContext_spec operation w)
    as (err & w2 & -> & Hsh & _).
  destruct err as [e|].
  { exists []. split; [by apply spawned_shell | by left]. }
  unfold runAction.
  destruct (action (repository w2)) as [[object actionErr|v] r].
  - destruct (handleActionResponse_account s object actionErr operation
                (with_repository r w2)) as (jobs & Hsp & Hjobs & _).
    exists jobs. split.
    + assert (Hpre : spawned w (with_repository r w2) []).
      { destruct Hsh as (Hw & Hg & Hgo & Hc & _). unfold spawned. cbn.
        rewrite app_nil_r, Nat.add_0_r, Z.add_0_r. done. }
      pose proof (spawned_trans _ _ _ _ _ Hpre Hsp) as Hall. cbn in Hall.
      destruct (handleActionResponse s object actionErr operation
                  (with_repository r w2)) as [res w3|v w3]; exact Hall.
    + destruct Hjobs as [->|[Hlt Hlen]]; [by left | right].
      cbn in Hlt. destruct Hsh as (Hw & _). rewrite Hw in Hlt. by split.
  - exists []. split; [|by left].
    destruct Hsh as (Hw & Hg & Hgo & Hc & _). unfold spawned. cbn.
    rewrite app_nil_r, Nat.add_0_r, Z.add_0_r. done.
Qed.

Lemma workerDeferred_account (operation : Operation) (panicErr : option string)
    (w : World) :
  goroutines (finalWorld (workerDeferred operation panicErr w)) = goroutines w
  ∧ smCtxErr (finalWorld (workerDeferred operation panicErr w)) = smCtxErr w
  ∧ ((returned (workerDeferred operation panicErr w) = Some tt
      ∧ workers (finalWorld (workerDeferred operation panicErr w))
        = pred (workers w)
      ∧ wg (finalWorld (workerDeferred operation panicErr w)) = wg w - 1)
     ∨ (returned (workerDeferred operation panicErr w) = None
        ∧ panicErr ≠ None
        ∧ workers (finalWorld (workerDeferred operation panicErr w)) = workers w
        ∧ wg (finalWorld (workerDeferred operation panicErr w)) = wg w)).
Proof.
  unfold workerDeferred, mbind, M_bind, mret, M_ret, receiveWorker, wgAdd.
  destruct panicErr as [v|].
  - destruct (refetchOperation_spec operation w)
      as (op0 & row & err & w1 & -> & (Hw & Hg & Hgo & Hc & _) & _).
    destruct row as [r|].
    + destruct (updateOperationState_spec r FAILED (Some jobInterrupted) w1)
        as (op' & err' & w2 & -> & (Hw2 & Hg2 & Hgo2 & Hc2 & _) & _).
      cbn. split; [congruence|]. split; [congruence|]. left.
      split; [done|]. split; [congruence | lia].
    + cbn. split; [done|]. split; [done|]. right. by repeat split.
  - cbn. split; [done|]. split; [done|]. left. split; [done|]. split; [done|lia].
Qed.

Lemma worker_account (s : Scheduler) (operation : Operation)
    (action : storageAction) (w : World) :
  ∃ jobs,
    (jobs = [] ∨ (workers w < poolSize s)%nat ∧ length jobs = 1%nat)
    ∧ goroutines (finalWorld (worker s operation action w))
      = (goroutines w ++ jobs)%list
    ∧ smCtxErr (finalWorld (worker s operation action w)) = smCtxErr w
    ∧ ((returned (worker s operation action w) = Some tt
        ∧ workers (finalWorld (worker s operation action w))
          = pred (workers w + length jobs)
        ∧ wg (finalWorld (worker s operation action w))
          = wg w + Z.of_nat (length jobs) - 1)
       ∨ (returned (worker s operation action w) = None
          ∧ workers (finalWorld (worker s operation action w))
            = (workers w + length jobs)%nat
          ∧ wg (finalWorld (worker s operation action w))
            = wg w + Z.of_nat (length jobs))).
Proof.
  destruct (workerBody_account s operation action w)
    as (jobs & (Hgo & Hw & Hg & Hc) & Hroom).
  exists jobs. split; [exact Hroom|].
  unfold worker.
  destruct (workerBody s operation action w) as [[] w1|v w1]; cbn in Hgo, Hw, Hg, Hc.
  - destruct (workerDeferred_account operation None w1)
      as (Hgo' & Hc' & [(Hret & Hw' & Hg')|(_ & Hne & _)]); [|done].
    split; [congruence|]. split; [congruence|]. left.
    split; [done|]. split; [congruence | lia].
  - destruct (workerDeferred_account operation (Some v) w1)
      as (Hgo' & Hc' & [(Hret & Hw' & Hg')|(Hret & _ & Hw' & Hg')]).
    + split; [congruence|]. split; [congruence|]. left.
      split; [done|]. split; [congruence | lia].
    + split; [congruence|]. split; [congruence|]. right.
      split; [done|]. split; [congruence | lia].
Qed.

(** One step keeps the slots within the pool, keeps a slot for every
    goroutine that has not finished, and moves the wait group with the
    slots. *)
Lemma step_account (s : Scheduler) (w w' : World) :
  step s w w' →
  (length (goroutines w) ≤ workers w)%nat →
  (length (goroutines w') ≤ workers w')%nat
  ∧ wg w' - Z.of_nat (workers w') = wg w - Z.of_nat (workers w)
  ∧ ((workers w ≤ poolSize s)%nat → (workers w' ≤ poolSize s)%nat).
Proof.
  intros Hstep Hinv. destruct Hstep as [operation action w|operation action w|w].
  - destruct (ScheduleAsyncStorageAction_account s operation action w)
      as (admission & w' & jobs & -> & (Hgo & Hw & Hg & _) & _ & Hjobs).
    cbn. rewrite Hgo, Hw, Hg, length_app.
    destruct Hjobs as [->|[Hlt Hlen]]; cbn; repeat split; lia.
  - destruct (ScheduleSyncStorageAction_account s operation action w)
      as (jobs & (Hgo & Hw & Hg & _) & Hjobs).
    rewrite Hgo, Hw, Hg, length_app.
    destruct Hjobs as [->|[Hlt Hlen]]; cbn; repeat split; lia.
  - unfold runGoroutine. destruct (goroutines w) as [|job rest] eqn:Hq.
    + cbn. rewrite Hq. repeat split; cbn; lia.
    + cbn in Hinv.
      destruct (worker_account s (job_operation job) (job_action job)
                  (with_goroutines rest w))
        as (jobs & Hjobs & Hgo & _ & Hres).
      cbn in Hjobs, Hgo, Hres. rewrite Hgo, length_app.
      destruct Hres as [(_ & -> & ->)|(_ & -> & ->)];
        destruct Hjobs as [->|[Hlt Hlen]]; cbn; repeat split; lia.
Qed.
Lemma steps_account (s : Scheduler) (w w' : World) :
  rtc (step s) w w' →
  (length (goroutines w) ≤ workers w)%nat →
  (length (goroutines w') ≤ workers w')%nat
  ∧ wg w' - Z.of_nat (workers w') = wg w - Z.of_nat (workers w)
  ∧ ((workers w ≤ poolSize s)%nat → (workers w' ≤ poolSize s)%nat).
Proof.
  induction 1 as [w|w w1 w2 Hstep _ IH]; intros Hinv.
  - by repeat split.
  - destruct (step_account s w w1 Hstep Hinv) as (Hinv1 & Hwg1 & Hpool1).
    destruct (IH Hinv1) as (Hinv2 & Hwg2 & Hpool2).
    repeat split; [done | lia | auto].
Qed.


(** X2: the pool bound.  Along every run of asynchronous submissions,
    synchronous submissions and goroutines running to their end, also
    when calls fail or panic, every goroutine that was started and has not
    finished holds a worker slot, and no more than PoolSize slots are
    held. *)
Theorem pool_bound (s : Scheduler) (w w' : World) :
  rtc (step s) w w' →
  (length (goroutines w) ≤ workers w)%nat →
  (workers w ≤ poolSize s)%nat →
  (length (goroutines w') ≤ workers w')%nat
  ∧ (workers w' ≤ poolSize s)%nat.
Proof.
  intros Hrun Hinv Hpool.
  destruct (steps_account s w w' Hrun Hinv) as (Hinv' & _ & Hpool').
  split; [exact Hinv' | by apply Hpool'].
Qed.


(** *** Runs without storage faults *)

Lemma noFaults_next (w : World) : noFaults w → nextCallFails (repository w) = None.
Proof. unfold noFaults, nextCallFails. by intros ->. Qed.

Lemma noFaults_consume (w : World) :
  noFaults w → with_repository (consumeFault (repository w)) w = w.
Proof.
  destruct w as [[ops objs script now] n g jobs ctx]. unfold noFaults. cbn.
  by intros ->.
Qed.

Lemma repo_call_noFaults {A : Type}
    (body : Repository -> (A + error) * Repository) (w : World) :
  noFaults w →
  repo (call body) w
  = Returned (body (repository w)).1
      (with_repository (body (repository w)).2 w).
Proof.
  intros Hnf. rewrite repo_call, (noFaults_next w Hnf).
  pose proof (noFaults_consume w Hnf) as Hc.
  assert (Hr : consumeFault (repository w) = repository w).
  { destruct w as [[ops objs script now] n g jobs ctx]. unfold noFaults in Hnf.
    cbn in *. by subst script. }
  by rewrite Hr.
Qed.

Lemma noFaults_withOperations (ops : list Operation) (w : World) :
  noFaults w → noFaults (withOperations ops w).
Proof. done. Qed.

Lemma noFaults_withObjects (objs : gmap (ObjectType * string) bool) (w : World) :
  noFaults w → noFaults (withObjects objs w).
Proof. done. Qed.

Lemma updateOperationState_noFaults (operation : Operation)
    (state : OperationState) (opErr : option error) (payload : option string)
    (w : World) :
  noFaults w →
  storedOperation (ID operation) w ≠ None →
  match opErr with
  | Some e => json_Marshal (ToHTTPError e) = inl (default "" payload)
              ∧ payload ≠ None
  | None => payload = None
  end →
  updateOperationState (Some operation) state opErr w
  = Returned (afterStateWrite state payload operation, None)
      (withOperations
         (replaceOperation
            (storedAfterWrite (clock (repository w)) state payload operation)
            (operations (repository w))) w).
Proof.
  intros Hnf Hrow Hpay. unfold updateOperationState, afterStateWrite,
    storedAfterWrite, afterStateWrite.
  assert (Hwrite : ∀ o : Operation,
    ID o = ID operation →
    (res ← repo (UpdateOperation o);
     match res with
     | inr err =>
         mret (o, Some (ErrorString
           ("failed to update state of operation with id " +:+ ID o
            +:+ " to " +:+ StateString state +:+ ": " +:+ Error err)))
     | inl _ => mret (o, None)
     end) w
    = Returned (o, None)
        (withOperations
           (replaceOperation (with_UpdatedAt (clock (repository w)) o)
              (operations (repository w))) w)).
  { intros o Hid. unfold mbind, M_bind, mret, M_ret, UpdateOperation.
    rewrite repo_call_noFaults by done. unfold storedOperation in Hrow.
    rewrite Hid.
    destruct (find (hasID (ID operation)) (operations (repository w)));
      [reflexivity | done]. }
  destruct opErr as [e|].
  - destruct Hpay as [Hm Hne]. destruct payload as [bytes|]; [|done].
    cbn in Hm. rewrite Hm.
    destruct (decide (Errors operation = "")) as [He|He].
    + rewrite (bool_decide_eq_true_2 (Errors operation = "")) by done.
      rewrite bool_decide_eq_true_2
        by (cbn; by apply length_zero_empty).
      by apply Hwrite.
    + rewrite (bool_decide_eq_false_2 (Errors operation = "")) by done.
      rewrite bool_decide_eq_false_2
        by (cbn; intros Hl; by apply length_zero_empty in Hl).
      by apply Hwrite.
  - subst payload. by apply Hwrite.
Qed.

Lemma fetchAndUpdateResource_noFaults (objectID : string)
    (objectType : ObjectType) (ready : bool) (w : World) :
  noFaults w →
  fetchAndUpdateResource objectID objectType (SetReady ready) w
  = Returned None
      (withObjects (setReadyKey ready (objectType, objectID)
                      (objects (repository w))) w).
Proof.
  intros Hnf. unfold fetchAndUpdateResource, mbind, M_bind, GetResource.
  rewrite repo_call_noFaults by done. unfold setReadyKey. cbn.
  destruct (objects (repository w) !! (objectType, objectID)) as [flag|] eqn:Hk;
    cbn.
  - unfold updateResource, mbind, M_bind, mret, M_ret, UpdateResource. cbn.
    rewrite repo_call_noFaults by done. cbn. rewrite Hk. reflexivity.
  - unfold mret, M_ret, withObjects, with_tables, with_repository.
    destruct w as [[ops objs script now] n g jobs ctx]. reflexivity.
Qed.

Lemma withObjects_withObjects (o1 o2 : gmap (ObjectType * string) bool)
    (w : World) :
  withObjects o2 (withObjects o1 w) = withObjects o2 w.
Proof. reflexivity. Qed.

Lemma updateTransitiveResources_noFaults (resources : list RelatedType)
    (ready : bool) (w : World) :
  noFaults w →
  updateTransitiveResources resources (SetReady ready) w
  = Returned None
      (withObjects (setReadyKeys ready (createKeys resources)
                      (objects (repository w))) w).
Proof.
  revert w. induction resources as [|trR rest IH]; intros w Hnf.
  - cbn. unfold mret, M_ret, withObjects, with_tables, with_repository.
    destruct w as [[ops objs script now] n g jobs ctx]. reflexivity.
  - cbn [updateTransitiveResources]. unfold createKeys. rewrite filter_cons.
    destruct (decide (rt_OperationType trR = CREATE)) as [Hc|Hc].
    + rewrite bool_decide_eq_true_2 by done. unfold mbind, M_bind.
      rewrite fetchAndUpdateResource_noFaults by done.
      rewrite IH by done. reflexivity.
    + rewrite bool_decide_eq_false_2 by done. by rewrite IH.
Qed.

Lemma refetchOperation_noFaults (operation row : Operation) (w : World) :
  noFaults w →
  storedOperation (ID operation) w = Some row →
  refetchOperation operation w = Returned (operation, Some row, None) w.
Proof.
  intros Hnf Hrow.
  rewrite (refetchOperation_found operation row w (noFaults_next w Hnf) Hrow).
  by rewrite noFaults_consume.
Qed.
Lemma storedOperation_replace (o : Operation) (w : World) :
  storedOperation (ID o) w ≠ None →
  storedOperation (ID o)
    (withOperations (replaceOperation o (operations (repository w))) w)
  = Some o.
Proof. intros Hrow. unfold storedOperation. cbn. by apply find_replaceOperation. Qed.

Lemma ID_afterStateWrite (state : OperationState) (payload : option string)
    (o : Operation) :
  ID (afterStateWrite state payload o) = ID o.
Proof.
  unfold afterStateWrite. destruct payload; [|done].
  by destruct (bool_decide (Errors o = "")).
Qed.

Lemma failureTransaction_noFaults (actionError : error) (opAfterJob : Operation)
    (payload : string) (w : World) :
  noFaults w →
  storedOperation (ID opAfterJob) w ≠ None →
  json_Marshal (ToHTTPError actionError) = inl payload →
  failureTransaction actionError opAfterJob w
  = Returned (afterStateWrite FAILED (Some payload) opAfterJob, None)
      (withOperations
         (replaceOperation
            (storedAfterWrite (clock (repository w)) FAILED (Some payload)
               opAfterJob)
            (operations (repository w)))
         (withObjects
            (if bool_decide (Type_ opAfterJob = CREATE)
                && bool_decide (State opAfterJob = FAILED)
             then setReadyKeys false (createKeys (TransitiveResources opAfterJob))
                    (setReadyKey false
                       (ResourceType opAfterJob, ResourceID opAfterJob)
                       (objects (repository w)))
             else objects (repository w)) w)).
Proof.
  intros Hnf Hrow Hm. unfold failureTransaction.
  assert (Hwrite : ∀ objs,
    ('(opAfterJob0, opErr) ←
       updateOperationState (Some opAfterJob) FAILED (Some actionError);
     match opErr with
     | Some opErr =>
         mret (opAfterJob0, Some (ErrorString
           ("setting new operation state failed: " +:+ Error opErr)))
     | None => mret (opAfterJob0, None)
     end) (withObjects objs w)
    = Returned (afterStateWrite FAILED (Some payload) opAfterJob, None)
        (withOperations
           (replaceOperation
              (storedAfterWrite (clock (repository w)) FAILED (Some payload)
                 opAfterJob)
              (operations (repository w)))
           (withObjects objs w))).
  { intros objs. unfold mbind, M_bind, mret, M_ret.
    rewrite (updateOperationState_noFaults opAfterJob FAILED (Some actionError)
               (Some payload) (withObjects objs w)); [reflexivity|done|done|].
    by split. }
  unfold mbind at 1, M_bind at 1.
  destruct (bool_decide (Type_ opAfterJob = CREATE)
            && bool_decide (State opAfterJob = FAILED)).
  - unfold mbind at 1, M_bind at 1.
    rewrite fetchAndUpdateResource_noFaults by done.
    rewrite updateTransitiveResources_noFaults by done.
    apply Hwrite.
  - unfold mret at 1, M_ret at 1.
    assert (Hw : w = withObjects (objects (repository w)) w).
    { by destruct w as [[ops objs script now] n g jobs ctx]. }
    rewrite Hw at 1. apply Hwrite.
Qed.

Lemma handleActionResponse_failure_noFaults
    (s : Scheduler) (actionObject : option Object) (actionError : error)
    (opBeforeJob row : Operation) (payload : string) (w : World) :
  noFaults w →
  storedOperation (ID opBeforeJob) w = Some row →
  opcontext_Set
    (with_TransitiveResources (TransitiveResources opBeforeJob) row) = None →
  json_Marshal (ToHTTPError actionError) = inl payload →
  DeletionScheduled row = 0 →
  let opAfterJob :=
    with_TransitiveResources (TransitiveResources opBeforeJob) row in
  handleActionResponse s actionObject (Some actionError) opBeforeJob w
  = Returned (None, Some actionError)
      (withOperations
         (replaceOperation
            (storedAfterWrite (clock (repository w)) FAILED (Some payload)
               opAfterJob)
            (operations (repository w)))
         (withObjects
            (if bool_decide (Type_ opAfterJob = CREATE)
                && bool_decide (State opAfterJob = FAILED)
             then setReadyKeys false (createKeys (TransitiveResources opAfterJob))
                    (setReadyKey false
                       (ResourceType opAfterJob, ResourceID opAfterJob)
                       (objects (repository w)))
             else objects (repository w)) w)).
Proof.
  intros Hnf Hrow Hctx Hm Hds opAfterJob.
  pose proof (find_hasID _ _ _ Hrow) as Hid.
  fold opAfterJob in Hctx.
  assert (Hstored : storedOperation (ID opAfterJob) w ≠ None).
  { cbn. rewrite Hid. by rewrite Hrow. }
  unfold handleActionResponse, mbind, M_bind, mret, M_ret.
  rewrite (refetchOperation_noFaults opBeforeJob row w Hnf Hrow).
  cbv beta iota. fold opAfterJob.
  unfold addOperationToContext. rewrite Hctx.
  unfold handleActionResponseFailure, mbind, M_bind, mret, M_ret,
    InTransaction.
  rewrite (failureTransaction_noFaults actionError opAfterJob payload w
             Hnf Hstored Hm).
  unfold timeNow, isDeleteRescheduleRequired, IsZero.
  rewrite (bool_decide_eq_true_2 (DeletionScheduled _ = 0)).
  - reflexivity.
  - unfold afterStateWrite.
    destruct (bool_decide (Errors opAfterJob = "")); exact Hds.
Qed.

(** X5: a failed action on an operation without scheduled deletion.  With
    no storage fault, the reconciler returns the very error of the action,
    stores the operation as FAILED with its updated_at bumped, writes the
    marshalled error into Errors if they were empty and keeps them
    otherwise, and starts no goroutine. *)
Theorem handleActionResponse_records_failure
    (s : Scheduler) (actionObject : option Object) (actionError : error)
    (opBeforeJob row : Operation) (payload : string) (w : World) :
  noFaults w →
  storedOperation (ID opBeforeJob) w = Some row →
  opcontext_Set
    (with_TransitiveResources (TransitiveResources opBeforeJob) row) = None →
  json_Marshal (ToHTTPError actionError) = inl payload →
  DeletionScheduled row = 0 →
  ∃ w' stored,
    handleActionResponse s actionObject (Some actionError) opBeforeJob w
    = Returned (None, Some actionError) w'
    ∧ storedOperation (ID opBeforeJob) w' = Some stored
    ∧ State stored = FAILED
    ∧ Errors stored = (if decide (Errors row = "") then payload else Errors row)
    ∧ UpdatedAt stored = clock (repository w)
    ∧ spawned w w' [].
Proof.
  intros Hnf Hrow Hctx Hm Hds.
  pose proof (find_hasID _ _ _ Hrow) as Hid.
  pose proof (handleActionResponse_failure_noFaults s actionObject actionError
                opBeforeJob row payload w Hnf Hrow Hctx Hm Hds) as Hrun.
  cbv zeta in Hrun.
  set (opAfterJob :=
         with_TransitiveResources (TransitiveResources opBeforeJob) row) in *.
  eexists _, _. split; [exact Hrun|].
  split.
  { assert (HidX : ID (storedAfterWrite (clock (repository w)) FAILED
                           (Some payload) opAfterJob) = ID opBeforeJob).
    { unfold storedAfterWrite. cbn [ID with_UpdatedAt].
      rewrite ID_afterStateWrite. exact Hid. }
    rewrite <- HidX.
    match goal with
    | |- storedOperation _ (withOperations _ ?w2) = _ =>
        apply (storedOperation_replace _ w2)
    end.
    rewrite HidX. unfold storedOperation in *. cbn. by rewrite Hrow. }
  split.
  { unfold storedAfterWrite, afterStateWrite.
    by destruct (bool_decide (Errors opAfterJob = "")). }
  split.
  { unfold storedAfterWrite, afterStateWrite. cbn.
    destruct (decide (Errors row = "")) as [He|He].
    - by rewrite bool_decide_eq_true_2.
    - by rewrite bool_decide_eq_false_2. }
  split.
  { unfold storedAfterWrite, afterStateWrite.
    by destruct (bool_decide (Errors opAfterJob = "")). }
  unfold spawned. cbn. rewrite app_nil_r, Nat.add_0_r, Z.add_0_r. done.
Qed.

(** X6: an error that cannot be marshalled.  With no storage fault, when
    json.Marshal fails on the HTTP form of the action error, the failure
    path returns "setting new operation state failed" with the marshal
    error, rolls back whatever it wrote, so the operation keeps its stored
    state, and neither waits nor re-admits the operation, whatever its
    DeletionScheduled. *)
Theorem handleActionResponseFailure_marshal_failure
    (s : Scheduler) (actionError merr : error) (opAfterJob : Operation)
    (w : World) :
  noFaults w →
  json_Marshal (ToHTTPError actionError) = inr merr →
  handleActionResponseFailure s actionError opAfterJob w
  = Returned
      (Some (ErrorString
         ("setting new operation state failed: " +:+ Error merr))) w.
Proof.
  intros Hnf Hm.
  assert (Hwrite : ∀ objs,
    ('(opAfterJob0, opErr) ←
       updateOperationState (Some opAfterJob) FAILED (Some actionError);
     match opErr with
     | Some opErr =>
         mret (opAfterJob0, Some (ErrorString
           ("setting new operation state failed: " +:+ Error opErr)))
     | None => mret (opAfterJob0, None)
     end) (withObjects objs w)
    = Returned (with_State FAILED opAfterJob,
                Some (ErrorString
                  ("setting new operation state failed: " +:+ Error merr)))
        (withObjects objs w)).
  { intros objs. unfold mbind, M_bind, mret, M_ret, updateOperationState.
    by rewrite Hm. }
  assert (Htx : ∃ objs,
    failureTransaction actionError opAfterJob w
    = Returned (with_State FAILED opAfterJob,
                Some (ErrorString
                  ("setting new operation state failed: " +:+ Error merr)))
        (withObjects objs w)).
  { unfold failureTransaction. unfold mbind at 1, M_bind at 1.
    destruct (bool_decide (Type_ opAfterJob = CREATE)
              && bool_decide (State opAfterJob = FAILED)).
    - unfold mbind at 1, M_bind at 1.
      rewrite fetchAndUpdateResource_noFaults by done.
      rewrite updateTransitiveResources_noFaults by done.
      eexists. apply Hwrite.
    - unfold mret at 1, M_ret at 1. exists (objects (repository w)).
      assert (Hw : w = withObjects (objects (repository w)) w).
      { by destruct w as [[ops objs script now] n g jobs ctx]. }
      rewrite Hw at 1. apply Hwrite. }
  destruct Htx as [objs Htx].
  unfold handleActionResponseFailure, mbind, M_bind, mret, M_ret, InTransaction.
  rewrite Htx. f_equal.
  by destruct w as [[ops objs0 script now] n g jobs ctx].
Qed.

(** The [select] of the failure path when the lifecycle context is done:
    once the FAILED operation is committed and mitigation is required, the
    call returns "sm context canceled" with the error of the context. *)
Lemma handleActionResponseFailure_context_done
    (s : Scheduler) (actionError : error) (opAfterJob failedOp : Operation)
    (text : string) (w w1 : World) :
  InTransaction (failureTransaction actionError opAfterJob) w
  = Returned (failedOp, None) w1 →
  isMitigationRequired s (clock (repository w1)) failedOp →
  smCtxErr w1 = Some text →
  handleActionResponseFailure s actionError opAfterJob w
  = Returned (Some (ErrorString ("sm context canceled: " +:+ text))) w1.
Proof.
  intros Htx Hreq Hctx.
  apply isDeleteRescheduleRequired_spec in Hreq.
  unfold handleActionResponseFailure. unfold mbind at 1, M_bind at 1.
  rewrite Htx. unfold mbind, M_bind, mret, M_ret, timeNow. rewrite Hreq.
  unfold waitReschedulingDelay. by rewrite Hctx.
Qed.

(** X7: a lifecycle context that is done stops orphan mitigation.  With no
    storage fault, when the action failed on a stored operation whose
    scheduled deletion is still within the reconciliation timeout and the
    lifecycle context is done before the positive rescheduling delay has
    passed, the reconciler returns "sm context canceled" with the error of
    the context instead of the action error; the operation is stored FAILED
    with its deletion still scheduled, the clock does not advance, no slot
    is taken and no goroutine is started. *)
Theorem handleActionResponse_lifecycle_done
    (s : Scheduler) (actionObject : option Object) (actionError : error)
    (opBeforeJob row : Operation) (payload text : string) (w : World) :
  noFaults w →
  storedOperation (ID opBeforeJob) w = Some row →
  opcontext_Set
    (with_TransitiveResources (TransitiveResources opBeforeJob) row) = None →
  json_Marshal (ToHTTPError actionError) = inl payload →
  DeletionScheduled row ≠ 0 →
  (clock (repository w)
   < DeletionScheduled row + reconciliationOperationTimeout s)%Z →
  (0 < reschedulingDelay s)%Z →
  smCtxErr w = Some text →
  ∃ w' stored,
    handleActionResponse s actionObject (Some actionError) opBeforeJob w
    = Returned (None, Some (ErrorString ("sm context canceled: " +:+ text))) w'
    ∧ storedOperation (ID opBeforeJob) w' = Some stored
    ∧ State stored = FAILED
    ∧ DeletionScheduled stored = DeletionScheduled row
    ∧ clock (repository w') = clock (repository w)
    ∧ spawned w w' [].
Proof.
  intros Hnf Hrow Hctx Hm Hds Hnow _ Hdone.
  pose proof (find_hasID _ _ _ Hrow) as Hid.
  set (opAfterJob :=
         with_TransitiveResources (TransitiveResources opBeforeJob) row) in *.
  assert (Hstored : storedOperation (ID opAfterJob) w ≠ None).
  { cbn. rewrite Hid. by rewrite Hrow. }
  pose proof (failureTransaction_noFaults actionError opAfterJob payload w
                Hnf Hstored Hm) as Htx.
  match type of Htx with
  | _ = Returned (?op, None) ?world =>
      set (failedOp := op) in *; set (w1 := world) in *
  end.
  assert (Hstate : State failedOp = FAILED).
  { unfold failedOp, afterStateWrite.
    by destruct (bool_decide (Errors opAfterJob = "")). }
  assert (Hkept : DeletionScheduled failedOp = DeletionScheduled row).
  { unfold failedOp, afterStateWrite.
    by destruct (bool_decide (Errors opAfterJob = "")). }
  assert (Hclock : clock (repository w1) = clock (repository w)) by done.
  assert (Hfail :
    handleActionResponseFailure s actionError opAfterJob w
    = Returned (Some (ErrorString ("sm context canceled: " +:+ text))) w1).
  { apply (handleActionResponseFailure_context_done s actionError opAfterJob
             failedOp text w w1).
    - unfold InTransaction. by rewrite Htx.
    - unfold isMitigationRequired. rewrite Hkept, Hstate, Hclock.
      split; [done|]. split; [done|discriminate].
    - exact Hdone. }
  exists w1, (storedAfterWrite (clock (repository w)) FAILED (Some payload)
                opAfterJob).
  split.
  { unfold handleActionResponse, mbind, M_bind, mret, M_ret.
    rewrite (refetchOperation_noFaults opBeforeJob row w Hnf Hrow).
    cbv beta iota. fold opAfterJob.
    unfold addOperationToContext. rewrite Hctx.
    unfold mret, M_ret. cbv beta iota.
    by rewrite Hfail. }
  split.
  { assert (HidX : ID (storedAfterWrite (clock (repository w)) FAILED
                           (Some payload) opAfterJob) = ID opBeforeJob).
    { unfold storedAfterWrite. cbn [ID with_UpdatedAt].
      rewrite ID_afterStateWrite. exact Hid. }
    rewrite <- HidX. unfold w1.
    match goal with
    | |- storedOperation _ (withOperations _ ?w2) = _ =>
        apply (storedOperation_replace _ w2)
    end.
    rewrite HidX. unfold storedOperation in *. cbn. by rewrite Hrow. }
  split; [exact Hstate|]. split; [exact Hkept|]. split; [exact Hclock|].
  unfold spawned, w1. cbn. rewrite app_nil_r, Nat.add_0_r, Z.add_0_r. done.
Qed.

Lemma updateOperationState_passes (operation : Operation)
    (state : OperationState) (e : error) (payload : string) (w : World) :
  nextCallFails (repository w) = None →
  storedOperation (ID operation) w ≠ None →
  json_Marshal (ToHTTPError e) = inl payload →
  updateOperationState (Some operation) state (Some e) w
  = Returned (afterStateWrite state (Some payload) operation, None)
      (withOperations
         (replaceOperation
            (storedAfterWrite (clock (repository w)) state (Some payload)
               operation)
            (operations (repository w)))
         (with_repository (consumeFault (repository w)) w)).
Proof.
  intros Hpass Hrow Hm. unfold updateOperationState, afterStateWrite,
    storedAfterWrite, afterStateWrite.
  assert (Hwrite : ∀ o : Operation,
    ID o = ID operation →
    (res ← repo (UpdateOperation o);
     match res with
     | inr err =>
         mret (o, Some (ErrorString
           ("failed to update state of operation with id " +:+ ID o
            +:+ " to " +:+ StateString state +:+ ": " +:+ Error err)))
     | inl _ => mret (o, None)
     end) w
    = Returned (o, None)
        (withOperations
           (replaceOperation (with_UpdatedAt (clock (repository w)) o)
              (operations (repository w)))
           (with_repository (consumeFault (repository w)) w))).
  { intros o Hid. unfold mbind, M_bind, mret, M_ret, UpdateOperation.
    rewrite repo_call, Hpass. unfold storedOperation in Hrow.
    rewrite Hid. cbn.
    destruct (find (hasID (ID operation)) (operations (repository w)));
      [reflexivity | done]. }
  rewrite Hm.
  destruct (decide (Errors operation = "")) as [He|He].
  - rewrite (bool_decide_eq_true_2 (Errors operation = "")) by done.
    rewrite bool_decide_eq_true_2 by (cbn; by apply length_zero_empty).
    by apply Hwrite.
  - rewrite (bool_decide_eq_false_2 (Errors operation = "")) by done.
    rewrite bool_decide_eq_false_2
      by (cbn; intros Hl; by apply length_zero_empty in Hl).
    by apply Hwrite.
Qed.
(** *** The re-fetch, panics and their recovery *)

(** X8: a failed re-fetch ends the reconciliation.  When the repository
    call of the re-fetch fails, handleActionResponse returns an error and
    runs neither the success nor the failure path: the resources are
    untouched and no goroutine is started, whatever the action returned.
    If the next call passes, the operation is stored and the error
    marshals, the operation as the caller holds it is written FAILED with
    the re-fetch error, and that error is the one returned. *)
Theorem handleActionResponse_refetch_failure
    (s : Scheduler) (actionObject : option Object) (actionError : option error)
    (opBeforeJob : Operation) (e : error) (w : World) :
  nextCallFails (repository w) = Some e →
  let opErr := ErrorString
    ("failed to re-fetch currently executing operation with id " +:+
     ID opBeforeJob +:+ " from db: " +:+ Error e) in
  ∃ err w',
    handleActionResponse s actionObject actionError opBeforeJob w
    = Returned (None, Some err) w'
    ∧ objects (repository w') = objects (repository w)
    ∧ spawned w w' []
    ∧ ∀ payload,
        nextCallFails (consumeFault (repository w)) = None →
        storedOperation (ID opBeforeJob) w ≠ None →
        json_Marshal (ToHTTPError opErr) = inl payload →
        err = opErr
        ∧ storedOperation (ID opBeforeJob) w'
          = Some (storedAfterWrite (clock (repository w)) FAILED (Some payload)
                    opBeforeJob).
Proof.
  intros Hfail opErr.
  unfold handleActionResponse, refetchOperation, GetOperation, mbind, M_bind,
    mret, M_ret.
  rewrite repo_call, Hfail. fold opErr.
  set (w0 := with_repository (consumeFault (repository w)) w).
  pose proof (updateOperationState_passes opBeforeJob FAILED opErr) as Hpass.
  destruct (updateOperationState_spec opBeforeJob FAILED (Some opErr) w0)
    as (op' & err' & w' & Heq & Hsh & Hobj & _).
  rewrite Heq.
  assert (Hsp : spawned w w' []).
  { apply spawned_shell. eapply sameShell_trans; [|exact Hsh]. by repeat split. }
  destruct err' as [e'|]; eexists _, _; (split; [reflexivity|]);
    (split; [exact Hobj|]); (split; [exact Hsp|]);
    intros payload Hnext Hrow Hm;
    rewrite (Hpass payload w0 Hnext Hrow Hm) in Heq.
  - discriminate.
  - injection Heq as _ <-. split; [reflexivity|].
    assert (HidX : ID (storedAfterWrite (clock (repository w)) FAILED
                         (Some payload) opBeforeJob) = ID opBeforeJob).
    { unfold storedAfterWrite. cbn [ID with_UpdatedAt].
      apply ID_afterStateWrite. }
    rewrite <- HidX at 1.
    apply (storedOperation_replace _ w0). by rewrite HidX.
Qed.


(** X10: a panic of the action is recovered.  When the operation can be
    attached to the context, the action panics and the re-fetch of the
    deferred function reads the stored operation, the goroutine ends
    without panicking: its slot is released, the wait group is decremented
    and no goroutine is started.  If the write passes as well and the job
    interrupted error marshals, the stored operation is FAILED and carries
    that error unless it already had one. *)
Theorem worker_recovers_action_panic
    (s : Scheduler) (operation row : Operation) (action : storageAction)
    (v : string) (r1 : Repository) (w : World) :
  opcontext_Set operation = None →
  action (repository w) = (ActionPanicked v, r1) →
  nextCallFails r1 = None →
  find (hasID (ID operation)) (operations r1) = Some row →
  let result := worker s operation action w in
  returned result = Some tt
  ∧ workers (finalWorld result) = pred (workers w)
  ∧ wg (finalWorld result) = wg w - 1
  ∧ goroutines (finalWorld result) = goroutines w
  ∧ objects (repository (finalWorld result)) = objects r1
  ∧ ∀ payload,
      nextCallFails (consumeFault r1) = None →
      json_Marshal (ToHTTPError jobInterrupted) = inl payload →
      storedOperation (ID operation) (finalWorld result)
      = Some (storedAfterWrite (clock r1) FAILED (Some payload) row).
Proof.
  intros Hctx Hact Hpass Hrow result. subst result.
  pose proof (find_hasID _ _ _ Hrow) as Hid.
  unfold worker, workerBody, addOperationToContext, mbind, M_bind, mret, M_ret,
    runAction.
  rewrite Hctx, Hact. cbv beta iota.
  set (w1 := with_repository r1 w).
  unfold workerDeferred, mbind, M_bind, mret, M_ret, receiveWorker, wgAdd.
  rewrite (refetchOperation_found operation row w1 Hpass Hrow).
  set (w2 := with_repository (consumeFault (repository w1)) w1).
  pose proof (updateOperationState_passes row FAILED jobInterrupted) as Hwrite.
  destruct (updateOperationState_spec row FAILED (Some jobInterrupted) w2)
    as (op' & err & w3 & Heq & (Hw & Hg & Hgo & _) & Hobj & _).
  rewrite Heq. cbn.
  split; [done|]. split; [by rewrite Hw|]. split; [rewrite Hg; cbn; lia|].
  split; [by rewrite Hgo|]. split; [by rewrite Hobj|].
  intros payload Hnext Hm.
  rewrite (Hwrite payload w2 Hnext) in Heq; [|by (unfold storedOperation; cbn;
    rewrite Hid, Hrow)|done].
  injection Heq as _ _ <-.
  assert (HidX : ID (storedAfterWrite (clock r1) FAILED (Some payload) row)
                 = ID operation).
  { unfold storedAfterWrite. cbn [ID with_UpdatedAt].
    by rewrite ID_afterStateWrite. }
  unfold storedOperation. cbn -[replaceOperation storedAfterWrite].
  rewrite <- HidX at 1. apply find_replaceOperation.
  rewrite HidX. by rewrite Hrow.
Qed.
(** *** Whole runs without storage faults *)

Lemma withObjects_id (w : World) : withObjects (objects (repository w)) w = w.
Proof. by destruct w as [[ops objs script now] n g jobs ctx]. Qed.

Lemma successTransaction_noFaults_plain (actionObject : option Object)
    (opAfterJob : Operation) (w : World) :
  noFaults w →
  storedOperation (ID opAfterJob) w ≠ None →
  ¬ (Type_ opAfterJob = CREATE ∧ specFinalState opAfterJob = SUCCEEDED) →
  successTransaction actionObject opAfterJob w
  = Returned (actionObject, None)
      (withOperations
         (replaceOperation
            (with_UpdatedAt (clock (repository w))
               (with_State (specFinalState opAfterJob)
                  (with_DeletionScheduled 0
                     (if bool_decide (specFinalState opAfterJob = SUCCEEDED)
                      then with_Errors "" opAfterJob else opAfterJob))))
            (operations (repository w))) w).
Proof.
  intros Hnf Hrow Hn. unfold successTransaction. rewrite finalStateOf_spec.
  set (finalState := specFinalState opAfterJob) in *.
  set (op2 := with_DeletionScheduled 0
                (if bool_decide (finalState = SUCCEEDED)
                 then with_Errors "" opAfterJob else opAfterJob)).
  assert (Hty : Type_ op2 = Type_ opAfterJob ∧ ID op2 = ID opAfterJob).
  { subst op2. by destruct (bool_decide (finalState = SUCCEEDED)). }
  destruct Hty as [Hty Hid].
  assert (Hb : bool_decide (Type_ op2 = CREATE)
               && bool_decide (finalState = SUCCEEDED) = false).
  { rewrite Hty. apply andb_false_iff.
    destruct (decide (Type_ opAfterJob = CREATE)) as [Hc|Hc].
    - right. apply bool_decide_eq_false_2. intros Hs. by apply Hn.
    - left. by apply bool_decide_eq_false_2. }
  unfold mbind, M_bind, mret, M_ret. rewrite Hb. cbv beta iota.
  rewrite (updateOperationState_noFaults op2 finalState None None w);
    [reflexivity | done | by rewrite Hid | done].
Qed.

Lemma updateResource_noFaults (obj : Object) (ready : bool) (w : World) :
  noFaults w →
  objects (repository w) !! (GetType obj, GetID obj) ≠ None →
  updateResource (Some obj) (SetReady ready) w
  = Returned (Some (mkObject (GetID obj) (GetType obj) ready), None)
      (withObjects
         (<[(GetType obj, GetID obj) := ready]> (objects (repository w))) w).
Proof.
  intros Hnf Hkey.
  unfold updateResource, SetReady, mbind, M_bind, mret, M_ret, UpdateResource.
  cbn [GetType GetID Ready].
  rewrite repo_call_noFaults by done. cbn [fst snd].
  by destruct (objects (repository w) !! (GetType obj, GetID obj)).
Qed.

Lemma successTransaction_noFaults_create (obj : Object)
    (opAfterJob : Operation) (w : World) :
  noFaults w →
  storedOperation (ID opAfterJob) w ≠ None →
  Type_ opAfterJob = CREATE →
  DeletionScheduled opAfterJob = 0 →
  objects (repository w) !! (GetType obj, GetID obj) ≠ None →
  successTransaction (Some obj) opAfterJob w
  = Returned (Some (mkObject (GetID obj) (GetType obj) true), None)
      (withOperations
         (replaceOperation
            (with_UpdatedAt (clock (repository w))
               (with_State SUCCEEDED
                  (with_DeletionScheduled 0 (with_Errors "" opAfterJob))))
            (operations (repository w)))
         (withObjects
            (setReadyKeys true (createKeys (TransitiveResources opAfterJob))
               (<[(GetType obj, GetID obj) := true]> (objects (repository w))))
            w)).
Proof.
  intros Hnf Hrow Hc Hd Hkey. unfold successTransaction.
  rewrite finalStateOf_spec. unfold specFinalState.
  rewrite decide_False by (intros [_ Hn]; done).
  rewrite (bool_decide_eq_true_2 (SUCCEEDED = SUCCEEDED)) by done.
  cbn [Type_ with_DeletionScheduled with_Errors TransitiveResources].
  rewrite Hc. rewrite (bool_decide_eq_true_2 (CREATE = CREATE)) by done.
  cbn [andb]. unfold mbind, M_bind, mret, M_ret.
  rewrite updateResource_noFaults by done.
  match goal with
  | |- context [updateTransitiveResources ?l ?f ?w1] =>
      rewrite (updateTransitiveResources_noFaults l true w1) by done
  end.
  cbv beta iota.
  match goal with
  | |- context [updateOperationState (Some ?o) ?st None ?w2] =>
      rewrite (updateOperationState_noFaults o st None None w2);
        [reflexivity | done | exact Hrow | done]
  end.
Qed.

Lemma executeOperationPreconditions_fresh (s : Scheduler)
    (operation : Operation) (w : World) :
  noFaults w →
  State operation ≠ SUCCEEDED →
  Validate operation = None →
  find (hasResourceID (ResourceID operation)) (rev (operations (repository w)))
  = None →
  storedOperation (ID operation) w = None →
  executeOperationPreconditions s operation w
  = Returned None
      (withOperations (operations (repository w) ++ [operation]) w).
Proof.
  intros Hnf Hs Hv Hlast Hfresh. unfold executeOperationPreconditions.
  rewrite bool_decide_eq_false_2 by done. rewrite Hv.
  unfold getResourceLastOperation, mbind, M_bind, mret, M_ret, LastOperation,
    timeNow.
  rewrite repo_call_noFaults by done. cbn [fst snd]. rewrite Hlast.
  cbn [fst snd]. rewrite (bool_decide_eq_true_2 (ErrNotFoundInStorage = _))
    by done.
  assert (Hw : with_repository (repository w) w = w).
  { by destruct w as [[ops objs script now] n g jobs ctx]. }
  rewrite Hw. unfold storeOrUpdateOperation, mbind, M_bind, mret, M_ret,
    CreateOperation.
  rewrite repo_call_noFaults by done. unfold storedOperation in Hfresh.
  rewrite Hfresh. reflexivity.
Qed.
Lemma call_noFaults {A : Type} (body : Repository -> (A + error) * Repository)
    (r : Repository) :
  faults r = [] → call body r = body r.
Proof.
  intros Hnf. unfold call. rewrite Hnf. cbn.
  destruct r as [ops objs script now]. cbn in Hnf. by subst script.
Qed.

(** X11: the goroutine of an orphan mitigation.  With no storage fault,
    the goroutine that runs the synthesized delete action for a stored
    operation with a scheduled deletion removes the resource of the
    operation and leaves all other resources alone, clears
    DeletionScheduled, ends the operation as FAILED with its Errors kept
    when its type is not DELETE and as SUCCEEDED with Errors cleared when
    it is, starts no further goroutine, releases its slot and decrements
    the wait group. *)
Theorem orphan_mitigation_goroutine
    (s : Scheduler) (operation row : Operation) (w : World) :
  noFaults w →
  opcontext_Set operation = None →
  storedOperation (ID operation) w = Some row →
  opcontext_Set
    (with_TransitiveResources (TransitiveResources operation) row) = None →
  Reschedule row = false →
  DeletionScheduled row ≠ 0 →
  let result := worker s operation (deletionAction operation) w in
  returned result = Some tt
  ∧ storedReady (ResourceType operation) (ResourceID operation)
      (finalWorld result) = None
  ∧ (∀ k, k ≠ (ResourceType operation, ResourceID operation) →
          objects (repository (finalWorld result)) !! k
          = objects (repository w) !! k)
  ∧ (∃ stored,
       storedOperation (ID operation) (finalWorld result) = Some stored
       ∧ State stored = (if decide (Type_ row = DELETE) then SUCCEEDED else FAILED)
       ∧ DeletionScheduled stored = 0
       ∧ Errors stored = (if decide (Type_ row = DELETE) then "" else Errors row))
  ∧ goroutines (finalWorld result) = goroutines w
  ∧ workers (finalWorld result) = pred (workers w)
  ∧ wg (finalWorld result) = wg w - 1.
Proof.
  intros Hnf Hctx Hrow Hctx' Hres Hds result. subst result.
  pose proof (find_hasID _ _ _ Hrow) as Hid.
  set (key := (ResourceType operation, ResourceID operation)).
  set (w1 := withObjects (delete key (objects (repository w))) w).
  set (opAfterJob :=
         with_TransitiveResources (TransitiveResources operation) row) in *.
  assert (Hfinal : specFinalState opAfterJob
                   = if decide (Type_ row = DELETE) then SUCCEEDED else FAILED).
  { unfold specFinalState. cbn [Type_ DeletionScheduled opAfterJob
      with_TransitiveResources].
    destruct (decide (Type_ row = DELETE)) as [Hd|Hd].
    - by rewrite decide_False by (intros [? _]; done).
    - by rewrite decide_True. }
  assert (Hplain : ¬ (Type_ opAfterJob = CREATE
                      ∧ specFinalState opAfterJob = SUCCEEDED)).
  { rewrite Hfinal. cbn [Type_ opAfterJob with_TransitiveResources].
    intros [Hc Hs]. destruct (decide (Type_ row = DELETE)) as [Hd|Hd];
      [congruence | discriminate]. }
  assert (Hact : runAction (deletionAction operation) w
                 = Returned (None, None) w1).
  { unfold runAction.
    rewrite (deletionAction_spec operation (repository w))
      by (by apply noFaults_next).
    unfold w1, withObjects, with_tables, with_repository, consumeFault.
    unfold noFaults in Hnf. destruct w as [[ops objs script now] n g jobs ctx].
    cbn in *. by subst script. }
  assert (Hrun : worker s operation (deletionAction operation) w
    = Returned tt
        (with_wg (wg w - 1)
           (with_workers (pred (workers w))
              (withOperations
                 (replaceOperation
                    (with_UpdatedAt (clock (repository w))
                       (with_State (specFinalState opAfterJob)
                          (with_DeletionScheduled 0
                             (if bool_decide
                                   (specFinalState opAfterJob = SUCCEEDED)
                              then with_Errors "" opAfterJob
                              else opAfterJob))))
                    (operations (repository w))) w1)))).
  { unfold worker, workerBody, addOperationToContext, mbind, M_bind, mret, M_ret.
    rewrite Hctx, Hact. cbv beta iota.
    unfold handleActionResponse, mbind, M_bind, mret, M_ret.
    rewrite (refetchOperation_noFaults operation row w1); [|done|exact Hrow].
    cbv beta iota. fold opAfterJob.
    unfold addOperationToContext. rewrite Hctx'.
    cbn [Reschedule opAfterJob with_TransitiveResources]. rewrite Hres.
    cbn [negb].
    unfold handleActionResponseSuccess, mbind, M_bind, mret, M_ret,
      InTransaction.
    rewrite (successTransaction_noFaults_plain None opAfterJob w1);
      [|done| |exact Hplain].
    2:{ cbn [ID opAfterJob with_TransitiveResources]. rewrite Hid.
        change (storedOperation (ID operation) w1)
          with (storedOperation (ID operation) w). by rewrite Hrow. }
    reflexivity. }
  rewrite Hrun. cbn [returned finalWorld].
  split; [done|]. split; [apply lookup_delete_eq|].
  split; [intros k Hk; by apply lookup_delete_ne|].
  split.
  { eexists. split.
    - unfold storedOperation.
      cbn -[replaceOperation specFinalState].
      rewrite <- Hid.
      match goal with
      | |- find (hasID (ID row)) (replaceOperation ?o _) = _ =>
          assert (HidX : ID o = ID row)
            by (cbn; by destruct (bool_decide _));
          rewrite <- HidX at 1; apply find_replaceOperation; rewrite HidX
      end.
      unfold storedOperation in Hrow. by rewrite Hid, Hrow.
    - rewrite Hfinal. cbn [State with_UpdatedAt with_State DeletionScheduled
        with_DeletionScheduled Errors].
      split; [done|]. split; [done|].
      destruct (decide (Type_ row = DELETE)) as [Hd|Hd].
      + by rewrite bool_decide_eq_true_2.
      + by rewrite bool_decide_eq_false_2. }
  by repeat split.
Qed.
Lemma replaceOperation_app_fresh (o o' : Operation) (l : list Operation) :
  ID o' = ID o →
  find (hasID (ID o)) l = None →
  replaceOperation o' (l ++ [o]) = (l ++ [o'])%list.
Proof.
  intros Hid. induction l as [|x l IH]; cbn.
  - intros _. unfold hasID. by rewrite bool_decide_eq_true_2.
  - rewrite Hid. destruct (hasID (ID o) x); [done|]. intros Hl.
    f_equal. by apply IH.
Qed.

(** X12: the test helper CreateBinding on fresh ids.  With no storage
    fault, an operation id and a binding id that the repository does not
    know, and an operation that validates and attaches to the context,
    CreateBinding returns the binding with Ready=true, the binding is
    stored with Ready=true, the operation is appended as SUCCEEDED with
    empty Errors and no scheduled deletion, all other resources are
    untouched and no worker slot or goroutine is used. *)
Theorem CreateBinding_fresh
    (s : Scheduler) (ServiceBindingType : ObjectType)
    (operationID bindingID : string) (w : World) :
  let operation :=
    mkOperation operationID (clock (repository w)) CREATE IN_PROGRESS bindingID
      ServiceBindingType false 0 "" [] in
  noFaults w →
  Validate operation = None →
  opcontext_Set operation = None →
  storedOperation operationID w = None →
  find (hasResourceID bindingID) (rev (operations (repository w))) = None →
  objects (repository w) !! (ServiceBindingType, bindingID) = None →
  ∃ w',
    CreateBinding s ServiceBindingType operationID bindingID w
    = Returned (mkObject bindingID ServiceBindingType true) w'
    ∧ storedReady ServiceBindingType bindingID w' = Some true
    ∧ operations (repository w')
      = (operations (repository w) ++ [with_State SUCCEEDED operation])%list
    ∧ storedOperation operationID w' = Some (with_State SUCCEEDED operation)
    ∧ (∀ k, k ≠ (ServiceBindingType, bindingID) →
            objects (repository w') !! k = objects (repository w) !! k)
    ∧ spawned w w' [].
Proof.
  intros operation Hnf Hv Hctx Hfresh Hlast Hkey.
  set (binding := mkObject bindingID ServiceBindingType true).
  set (key := (ServiceBindingType, bindingID)) in *.
  set (w1 := withOperations (operations (repository w) ++ [operation]) w).
  set (w2 := withObjects (<[key := true]> (objects (repository w))) w1).
  assert (Hpre : executeOperationPreconditions s operation w = Returned None w1).
  { by apply executeOperationPreconditions_fresh. }
  assert (Hact : runAction (createAction binding) w1
                 = Returned (Some binding, None) w2).
  { unfold runAction, createAction, CreateResource.
    rewrite call_noFaults by done.
    cbn [GetType GetID Ready binding objects repository w1 withOperations
         with_repository with_tables].
    fold key. rewrite Hkey. reflexivity. }
  assert (Hrow : storedOperation operationID w2 = Some operation).
  { unfold storedOperation. cbn [operations repository w2 w1 withObjects
      withOperations with_repository with_tables].
    unfold storedOperation in Hfresh. rewrite find_app_fresh by done.
    unfold hasID. by rewrite bool_decide_eq_true_2. }
  assert (Hsucc : successTransaction (Some binding) operation w2
    = Returned (Some binding, None)
        (withOperations
           (operations (repository w) ++ [with_State SUCCEEDED operation])
           w2)).
  { rewrite (successTransaction_noFaults_create binding operation w2);
      [|done
       |by (change (storedOperation operationID w2 ≠ None); rewrite Hrow)
       |done|done|].
    2:{ cbn [GetType GetID binding objects repository w2 withObjects
             with_repository with_tables]. fold key.
        by rewrite lookup_insert_eq. }
    cbn [TransitiveResources operation createKeys filter map setReadyKeys foldl
         list_filter fmap list_fmap].
    f_equal.
    unfold withOperations, withObjects, with_repository, with_tables.
    cbn [repository operations objects faults clock workers wg goroutines
         smCtxErr w2 w1 withOperations withObjects with_repository with_tables
         GetType GetID binding].
    fold key. rewrite insert_insert_eq.
    rewrite (replaceOperation_app_fresh operation); [reflexivity|done|].
    exact Hfresh. }
  eexists. split.
  - unfold CreateBinding, mbind, M_bind, mret, M_ret, timeNow.
    fold operation. fold binding.
    unfold ScheduleSyncStorageAction, mbind, M_bind, mret, M_ret.
    rewrite Hpre. cbv beta iota.
    unfold addOperationToContext at 1. rewrite Hctx.
    unfold mret, M_ret. cbv beta iota.
    rewrite Hact. cbv beta iota.
    unfold handleActionResponse, mbind, M_bind, mret, M_ret.
    rewrite (refetchOperation_noFaults operation operation w2 Hnf Hrow).
    cbv beta iota.
    change (with_TransitiveResources (TransitiveResources operation) operation)
      with operation.
    unfold addOperationToContext. rewrite Hctx.
    unfold mret, M_ret. cbv beta iota.
    cbn [Reschedule operation negb].
    unfold handleActionResponseSuccess, mbind, M_bind, mret, M_ret,
      InTransaction.
    rewrite Hsucc. reflexivity.
  - split; [apply lookup_insert_eq|]. split; [reflexivity|].
    split.
    { unfold storedOperation. cbn [operations repository withOperations
        with_repository with_tables].
      unfold storedOperation in Hfresh. rewrite find_app_fresh by done.
      unfold hasID. cbn [ID with_State operation].
      by rewrite bool_decide_eq_true_2. }
    split; [intros k Hk; by apply lookup_insert_ne|].
    unfold spawned. cbn. rewrite app_nil_r, Nat.add_0_r, Z.add_0_r. done.
Qed.
(** *** The gate over time *)

(** X13: an abandoned or finished last operation.  When the last
    operation is not IN_PROGRESS, or its updated_at lies ActionTimeout or
    more in the past, the gate admits every new operation of a known type
    except a CREATE or UPDATE after a DELETE that still has a deletion
    scheduled. *)
Theorem checkForConcurrentOperations_not_in_progress
    (s : Scheduler) (now : Time) (new last : Operation) :
  State last ≠ IN_PROGRESS ∨ (UpdatedAt last + actionTimeout s ≤ now)%Z →
  Type_ last ∈ [CREATE; UPDATE; DELETE] →
  Type_ new ∈ [CREATE; UPDATE; DELETE] →
  checkForConcurrentOperations s now new last = None
  ↔ ¬ (Type_ last = DELETE ∧ Type_ new ≠ DELETE ∧ DeletionScheduled last ≠ 0).
Proof.
  intros Hidle Hlast Hnew.
  unfold checkForConcurrentOperations, IsZero, Before, Add.
  assert (Hp : bool_decide (State last = IN_PROGRESS)
               && bool_decide (now < UpdatedAt last + actionTimeout s) = false).
  { apply andb_false_iff. destruct Hidle as [Hs|Ht].
    - left. by apply bool_decide_eq_false_2.
    - right. apply bool_decide_eq_false_2. lia. }
  rewrite Hp. cbn [andb orb].
  rewrite !elem_of_cons in Hlast, Hnew.
  destruct Hlast as [->|[->|[->|Hl]]]; [| | |by apply elem_of_nil in Hl];
    destruct Hnew as [->|[->|[->|Hn]]]; try (by apply elem_of_nil in Hn);
    try (split; [intros _ [? _]; done | done]).
  - destruct (decide (DeletionScheduled last = 0)) as [Hd|Hd].
    + rewrite bool_decide_eq_true_2 by done. cbn. split; [|done].
      intros _ (_ & _ & Hne). done.
    + rewrite bool_decide_eq_false_2 by done. cbn. split; [done|].
      intros Hn. destruct Hn. by repeat split.
  - destruct (decide (DeletionScheduled last = 0)) as [Hd|Hd].
    + rewrite bool_decide_eq_true_2 by done. cbn. split; [|done].
      intros _ (_ & _ & Hne). done.
    + rewrite bool_decide_eq_false_2 by done. cbn. split; [done|].
      intros Hn. destruct Hn. by repeat split.
  - split; [|done]. intros _ (_ & Hne & _). done.
Qed.

(** X14: the gate only opens with time.  An operation the gate admits
    at one instant is admitted at every later instant against the same
    last operation. *)
Theorem checkForConcurrentOperations_admits_later
    (s : Scheduler) (now later : Time) (new last : Operation) :
  (now ≤ later)%Z →
  checkForConcurrentOperations s now new last = None →
  checkForConcurrentOperations s later new last = None.
Proof.
  intros Hle. unfold checkForConcurrentOperations, IsZero, Before, Add.
  set (d := negb (bool_decide (DeletionScheduled last = 0))).
  set (r := Reschedule last && Reschedule new).
  assert (Hp : bool_decide (later < UpdatedAt last + actionTimeout s) = true →
               bool_decide (now < UpdatedAt last + actionTimeout s) = true).
  { rewrite !bool_decide_eq_true. lia. }
  destruct (bool_decide (later < UpdatedAt last + actionTimeout s)).
  - by rewrite (Hp eq_refl).
  - rewrite andb_false_r.
    destruct (bool_decide (State last = IN_PROGRESS)
              && bool_decide (now < UpdatedAt last + actionTimeout s));
      destruct (Type_ last), (Type_ new), d, r; cbn; try done.
Qed.
(** *** What the Ready updates leave alone *)



(** X16: synchronous scheduling uses no worker.  ScheduleSyncStorageAction
    with an action that never returns an error takes no worker slot, does
    not touch the wait group and starts no goroutine, also when a
    precondition fails, a storage call fails or the call panics. *)
Theorem ScheduleSyncStorageAction_takes_no_slot
    (s : Scheduler) (operation : Operation) (action : storageAction) (w : World) :
  (∀ r object e, (action r).1 ≠ ActionReturned object (Some e)) →
  spawned w (finalWorld (ScheduleSyncStorageAction s operation action w)) [].
Proof.
  intros Hnoerr.
  unfold ScheduleSyncStorageAction, mbind, M_bind, mret, M_ret.
  destruct (executeOperationPreconditions_outcome s operation w)
    as (err & w1 & -> & Hsh1 & _).
  destruct err as [e|]; [by apply spawned_shell|].
  destruct (addOperationToContext_spec operation w1)
    as (err & w2 & -> & Hsh2 & _).
  pose proof (sameShell_trans _ _ _ Hsh1 Hsh2) as Hsh.
  destruct err as [e|]; [by apply spawned_shell|].
  unfold runAction.
  assert (Hpre : ∀ r, spawned w (with_repository r w2) []).
  { intros r. destruct Hsh as (Hw & Hg & Hgo & Hc & _). unfold spawned. cbn.
    rewrite app_nil_r, Nat.add_0_r, Z.add_0_r. done. }
  pose proof (Hnoerr (repository w2)) as Hne.
  destruct (action (repository w2)) as [[object actionErr|v] r]; [|apply Hpre].
  destruct actionErr as [e|]; [by destruct (Hne object e)|].
  destruct (handleActionResponse_account s object None operation
              (with_repository r w2)) as (jobs & Hsp & _ & Hnil & _).
  rewrite (Hnil eq_refl) in Hsp.
  pose proof (spawned_trans _ _ _ _ _ (Hpre r) Hsp) as Hall. cbn in Hall.
  destruct (handleActionResponse s object None operation
              (with_repository r w2)) as [[obj [e|]] w3|v w3]; exact Hall.
Qed.
(** *** Submissions that are turned away *)

(** X17: a submission that cannot be valid.  An operation in state
    SUCCEEDED or one that fails validation is turned away by both entry
    points before any repository call: the world, the fault script
    included, is as before, no slot stays taken and the action is not
    run. *)
Theorem schedule_rejects_invalid_operation
    (s : Scheduler) (operation : Operation) (action : storageAction) (w : World) :
  State operation = SUCCEEDED ∨ Validate operation ≠ None →
  (∃ e, ScheduleSyncStorageAction s operation action w
        = Returned (None, Some e) w)
  ∧ (∃ e, ScheduleAsyncStorageAction s operation action w
          = Returned (Some e) w).
Proof.
  intros Hbad.
  assert (Hpre : ∃ e, ∀ w0, executeOperationPreconditions s operation w0
                            = Returned (Some e) w0).
  { unfold executeOperationPreconditions.
    destruct (decide (State operation = SUCCEEDED)) as [Hs|Hs].
    - rewrite bool_decide_eq_true_2 by done. by eexists.
    - rewrite bool_decide_eq_false_2 by done.
      destruct Hbad as [?|Hv]; [done|].
      destruct (Validate operation); [by eexists | done]. }
  destruct Hpre as [e Hpre]. split.
  - exists e. unfold ScheduleSyncStorageAction, mbind, M_bind, mret, M_ret.
    by rewrite Hpre.
  - unfold ScheduleAsyncStorageAction, trySendWorker, mbind, M_bind, mret, M_ret,
      receiveWorker.
    destruct (bool_decide (workers w < poolSize s)%nat).
    + exists e. rewrite Hpre. f_equal.
      by destruct w as [r n g jobs ctx].
    + by eexists.
Qed.

Lemma getResourceLastOperation_found (operation last : Operation) (w : World) :
  nextCallFails (repository w) = None →
  find (hasResourceID (ResourceID operation)) (rev (operations (repository w)))
  = Some last →
  getResourceLastOperation operation w
  = Returned (Some last, true, None)
      (with_repository (consumeFault (repository w)) w).
Proof.
  intros Hpass Hlast.
  unfold getResourceLastOperation, mbind, M_bind, mret, M_ret, LastOperation.
  rewrite repo_call, Hpass. cbn. by rewrite Hlast.
Qed.

(** X18: a rejection of the gate reaches the caller.  When the operation
    is valid, the lookup of the last operation passes and the gate
    answers with an error for that last operation, both entry points
    return exactly this error; no operation is created or updated, the
    action is not run, no goroutine is started and the slot taken by the
    asynchronous entry point is released. *)
Theorem schedule_returns_gate_rejection
    (s : Scheduler) (operation last : Operation) (action : storageAction)
    (e : error) (w : World) :
  State operation ≠ SUCCEEDED →
  Validate operation = None →
  nextCallFails (repository w) = None →
  find (hasResourceID (ResourceID operation)) (rev (operations (repository w)))
  = Some last →
  checkForConcurrentOperations s (clock (repository w)) operation last = Some e →
  ScheduleSyncStorageAction s operation action w
  = Returned (None, Some e) (with_repository (consumeFault (repository w)) w)
  ∧ ((workers w < poolSize s)%nat →
     ScheduleAsyncStorageAction s operation action w
     = Returned (Some e) (with_repository (consumeFault (repository w)) w)).
Proof.
  intros Hs Hv Hpass Hlast Hgate.
  assert (Hpre : ∀ w0,
    repository w0 = repository w →
    executeOperationPreconditions s operation w0
    = Returned (Some e) (with_repository (consumeFault (repository w)) w0)).
  { intros w0 Hr. unfold executeOperationPreconditions.
    rewrite bool_decide_eq_false_2 by done. rewrite Hv.
    unfold mbind, M_bind, mret, M_ret, timeNow.
    rewrite (getResourceLastOperation_found operation last w0)
      by (by rewrite Hr).
    rewrite Hr. cbn [clock consumeFault repository with_repository].
    by rewrite Hgate. }
  split.
  - unfold ScheduleSyncStorageAction, mbind, M_bind, mret, M_ret.
    by rewrite Hpre.
  - intros Hroom.
    unfold ScheduleAsyncStorageAction, trySendWorker, mbind, M_bind, mret, M_ret,
      receiveWorker.
    rewrite bool_decide_eq_true_2 by done.
    by rewrite Hpre.
Qed.

(** X19: an admitted operation is the next one the gate looks at.  After
    ScheduleAsyncStorageAction admitted an operation under an id the
    repository did not know, the preconditions of the next valid
    submission for the same resource judge it against exactly that
    operation: on a rejection they return the gate's error and write
    nothing, otherwise they go on to store it with that operation as its
    predecessor. *)
Theorem admitted_operation_is_last
    (s : Scheduler) (first next : Operation) (action : storageAction)
    (w w1 : World) :
  storedOperation (ID first) w = None →
  ScheduleAsyncStorageAction s first action w = Returned None w1 →
  ResourceID next = ResourceID first →
  State next ≠ SUCCEEDED →
  Validate next = None →
  nextCallFails (repository w1) = None →
  executeOperationPreconditions s next w1
  = match checkForConcurrentOperations s (clock (repository w1)) next first with
    | Some e =>
        Returned (Some e) (with_repository (consumeFault (repository w1)) w1)
    | None =>
        storeOrUpdateOperation next (Some first)
          (with_repository (consumeFault (repository w1)) w1)
    end.
Proof.
  intros Hfresh Hadm Hrid Hs Hv Hpass.
  assert (Hops : operations (repository w1)
                 = (operations (repository w) ++ [first])%list).
  { revert Hadm. unfold ScheduleAsyncStorageAction, trySendWorker, mbind, M_bind,
      mret, M_ret, receiveWorker, wgAdd, go.
    destruct (bool_decide (workers w < poolSize s)%nat); [|discriminate].
    destruct (executeOperationPreconditions_outcome s first
                (with_workers (S (workers w)) w))
      as (err' & w3 & -> & _ & _ & Hout).
    destruct err' as [e'|]; [discriminate|].
    intros [= <-]. cbn.
    destruct Hout as (_ & _ & [[_ ->]|[Hsome _]]); [done|].
    by destruct Hsome. }
  unfold executeOperationPreconditions.
  rewrite bool_decide_eq_false_2 by done. rewrite Hv.
  unfold mbind, M_bind, mret, M_ret, timeNow.
  rewrite (getResourceLastOperation_found next first w1 Hpass).
  - cbn [clock consumeFault repository with_repository].
    by destruct (checkForConcurrentOperations s (clock (repository w1)) next first).
  - rewrite Hops, rev_app_distr. cbn. unfold hasResourceID.
    by rewrite bool_decide_eq_true_2.
Qed.
(** X20: a goroutine whose operation cannot be attached to the context.
    The action is not run: the goroutine returns, the resources are as
    before, no goroutine is started, the slot is released and the wait
    group decremented.  If the repository call passes, the operation is
    stored and the error marshals, the operation is stored as FAILED with
    the context error. *)
Theorem worker_context_failure
    (s : Scheduler) (operation : Operation) (action : storageAction)
    (e : error) (w : World) :
  opcontext_Set operation = Some e →
  let setCtxErr :=
    ErrorString ("failed to set operation in job context: " +:+ Error e) in
  let result := worker s operation action w in
  returned result = Some tt
  ∧ objects (repository (finalWorld result)) = objects (repository w)
  ∧ goroutines (finalWorld result) = goroutines w
  ∧ workers (finalWorld result) = pred (workers w)
  ∧ wg (finalWorld result) = wg w - 1
  ∧ ∀ payload,
      nextCallFails (repository w) = None →
      storedOperation (ID operation) w ≠ None →
      json_Marshal (ToHTTPError setCtxErr) = inl payload →
      storedOperation (ID operation) (finalWorld result)
      = Some (storedAfterWrite (clock (repository w)) FAILED (Some payload)
                operation).
Proof.
  intros Hctx setCtxErr result. subst result.
  unfold worker, workerBody, addOperationToContext, mbind, M_bind, mret, M_ret.
  rewrite Hctx. fold setCtxErr.
  pose proof (updateOperationState_passes operation FAILED setCtxErr) as Hpass.
  destruct (updateOperationState_spec operation FAILED (Some setCtxErr) w)
    as (op' & err & w1 & Heq & (Hw & Hg & Hgo & _) & Hobj & _).
  rewrite Heq.
  assert (Hdone : ∀ w2, workerDeferred operation None w2
    = Returned tt (with_wg (wg w2 + -1) (with_workers (pred (workers w2)) w2))).
  { reflexivity. }
  assert (Hall :
    (let result :=
       Returned tt (with_wg (wg w1 + -1) (with_workers (pred (workers w1)) w1)) in
     returned result = Some tt
     ∧ objects (repository (finalWorld result)) = objects (repository w)
     ∧ goroutines (finalWorld result) = goroutines w
     ∧ workers (finalWorld result) = pred (workers w)
     ∧ wg (finalWorld result) = wg w - 1
     ∧ ∀ payload,
         nextCallFails (repository w) = None →
         storedOperation (ID operation) w ≠ None →
         json_Marshal (ToHTTPError setCtxErr) = inl payload →
         storedOperation (ID operation) (finalWorld result)
         = Some (storedAfterWrite (clock (repository w)) FAILED (Some payload)
                   operation))).
  { cbn. split; [done|]. split; [done|]. split; [done|].
    split; [by rewrite Hw|]. split; [rewrite Hg; lia|].
    intros payload Hnext Hrow Hm.
    rewrite (Hpass payload w Hnext Hrow Hm) in Heq. injection Heq as _ _ <-.
    assert (HidX : ID (storedAfterWrite (clock (repository w)) FAILED
                         (Some payload) operation) = ID operation).
    { unfold storedAfterWrite. cbn [ID with_UpdatedAt].
      apply ID_afterStateWrite. }
    rewrite <- HidX at 1.
    apply (storedOperation_replace _
             (with_repository (consumeFault (repository w)) w)).
    by rewrite HidX. }
  destruct err as [e'|]; cbv beta iota; rewrite Hdone; exact Hall.
Qed.

(** X21: the test helper CreateBinding on a binding id that is taken.
    With no storage fault, when the repository already holds a binding
    under the generated binding id, the create action fails, the
    operation is appended and ends FAILED with the marshalled conflict
    error, the stored binding keeps its Ready flag, no worker is used, and
    CreateBinding fails the test. *)
Theorem CreateBinding_existing
    (s : Scheduler) (ServiceBindingType : ObjectType)
    (operationID bindingID payload : string) (ready : bool) (w : World) :
  let operation :=
    mkOperation operationID (clock (repository w)) CREATE IN_PROGRESS bindingID
      ServiceBindingType false 0 "" [] in
  noFaults w →
  Validate operation = None →
  opcontext_Set operation = None →
  json_Marshal (ToHTTPError ErrAlreadyExistsInStorage) = inl payload →
  storedOperation operationID w = None →
  find (hasResourceID bindingID) (rev (operations (repository w))) = None →
  objects (repository w) !! (ServiceBindingType, bindingID) = Some ready →
  ∃ w',
    CreateBinding s ServiceBindingType operationID bindingID w
    = Panicked "failed to create binding with name test-service-binding" w'
    ∧ objects (repository w') = objects (repository w)
    ∧ operations (repository w')
      = (operations (repository w)
         ++ [with_Errors payload (with_State FAILED operation)])%list
    ∧ spawned w w' [].
Proof.
  intros operation Hnf Hv Hctx Hm Hfresh Hlast Hkey.
  set (binding := mkObject bindingID ServiceBindingType true).
  set (w1 := withOperations (operations (repository w) ++ [operation]) w).
  assert (Hpre : executeOperationPreconditions s operation w = Returned None w1).
  { by apply executeOperationPreconditions_fresh. }
  assert (Hact : runAction (createAction binding) w1
                 = Returned (None, Some ErrAlreadyExistsInStorage) w1).
  { unfold runAction, createAction, CreateResource.
    rewrite call_noFaults by done.
    cbn [GetType GetID Ready binding objects repository w1 withOperations
         with_repository with_tables].
    rewrite Hkey. unfold w1, withOperations, with_repository, with_tables.
    by destruct w as [[ops objs script now] n g jobs ctx]. }
  assert (Hrow : storedOperation operationID w1 = Some operation).
  { unfold storedOperation. cbn [operations repository w1
      withOperations with_repository with_tables].
    unfold storedOperation in Hfresh. rewrite find_app_fresh by done.
    unfold hasID. by rewrite bool_decide_eq_true_2. }
  pose proof (handleActionResponse_failure_noFaults s None
                ErrAlreadyExistsInStorage operation operation payload w1)
    as Hhar.
  cbv zeta in Hhar.
  change (with_TransitiveResources (TransitiveResources operation) operation)
    with operation in Hhar.
  specialize (Hhar Hnf Hrow Hctx Hm eq_refl).
  eexists. split.
  - unfold CreateBinding, mbind, M_bind, mret, M_ret, timeNow.
    fold operation. fold binding.
    unfold ScheduleSyncStorageAction, mbind, M_bind, mret, M_ret.
    rewrite Hpre. cbv beta iota.
    unfold addOperationToContext at 1. rewrite Hctx.
    unfold mret, M_ret. cbv beta iota.
    rewrite Hact. cbv beta iota.
    rewrite Hhar. reflexivity.
  - split; [reflexivity|]. split.
    + cbn [operations repository withOperations withObjects with_repository
           with_tables w1 clock].
      rewrite (replaceOperation_app_fresh operation); [reflexivity|done|].
      exact Hfresh.
    + unfold spawned. cbn. rewrite app_nil_r, Nat.add_0_r, Z.add_0_r. done.
Qed.
End MoreProperties.

(** ** The further properties at concrete inputs *)

Section MoreScenarios.
#[local] Existing Instance Demo.externals.

(** One asynchronous submission into an empty pool of size one. *)
Lemma pool_bound_witness :
  let w := Demo.world [] [] [] 0 in
  let w' :=
    finalWorld (ScheduleAsyncStorageAction Demo.scheduler Demo.o1 noAction w) in
  (length (goroutines w') ≤ workers w')%nat
  ∧ (workers w' ≤ poolSize Demo.scheduler)%nat.
Proof.
  intros w w'.
  apply (pool_bound Demo.scheduler w w').
  - apply rtc_once. apply step_async.
  - vm_compute. lia.
  - vm_compute. lia.
Defined.


Lemma handleActionResponse_records_failure_witness :
  let w := Demo.world [Demo.o1] [Demo.binding false] [] 0 in
  ∃ w' stored,
    handleActionResponse Demo.scheduler None
      (Some (ErrorString "broker unreachable")) Demo.o1 w
    = Returned (None, Some (ErrorString "broker unreachable")) w'
    ∧ storedOperation "o1" w' = Some stored
    ∧ State stored = FAILED
    ∧ Errors stored
      = (if decide (Errors Demo.o1 = "")
         then "{error:InternalServerError,description:broker unreachable}"
         else Errors Demo.o1)
    ∧ UpdatedAt stored = clock (repository w)
    ∧ spawned w w' [].
Proof.
  intros w.
  apply (handleActionResponse_records_failure Demo.scheduler None
           (ErrorString "broker unreachable") Demo.o1 Demo.o1
           "{error:InternalServerError,description:broker unreachable}" w);
    reflexivity.
Defined.

Lemma handleActionResponse_lifecycle_done_witness :
  let op := with_DeletionScheduled 90 Demo.o1 in
  let w :=
    mkWorld (repository (Demo.world [op] [Demo.binding true] [] 0)) 0 0 []
      (Some "context canceled") in
  ∃ w' stored,
    handleActionResponse Demo.scheduler None
      (Some (ErrorString "broker unreachable")) op w
    = Returned
        (None, Some (ErrorString "sm context canceled: context canceled")) w'
    ∧ storedOperation "o1" w' = Some stored
    ∧ State stored = FAILED
    ∧ DeletionScheduled stored = 90
    ∧ clock (repository w') = clock (repository w)
    ∧ spawned w w' [].
Proof.
  intros op w.
  apply (@handleActionResponse_lifecycle_done Demo.externals Demo.scheduler
           None (ErrorString "broker unreachable") op op
           "{error:InternalServerError,description:broker unreachable}"
           "context canceled" w).
  - reflexivity.
  - reflexivity.
  - reflexivity.
  - reflexivity.
  - vm_compute. discriminate.
  - vm_compute. reflexivity.
  - vm_compute. reflexivity.
  - reflexivity.
Defined.

Lemma handleActionResponse_refetch_failure_witness :
  let w := Demo.world [Demo.o1] [Demo.binding true] [Some "connection refused"] 0 in
  ∃ err w',
    handleActionResponse Demo.scheduler (Some (Demo.binding true)) None Demo.o1 w
    = Returned (None, Some err) w'
    ∧ objects (repository w') = objects (repository w)
    ∧ spawned w w' [].
Proof.
  intros w.
  destruct (@handleActionResponse_refetch_failure Demo.externals Demo.scheduler
              (Some (Demo.binding true)) None Demo.o1
              (ErrorString "connection refused") w eq_refl)
    as (err & w' & Hrun & Hobj & Hsp & _).
  exists err, w'. split; [exact Hrun|]. split; [exact Hobj | exact Hsp].
Defined.


Lemma worker_recovers_action_panic_witness :
  let w := Demo.world [Demo.o1] [] [] 1 in
  let result :=
    worker Demo.scheduler Demo.o1 (fun r => (ActionPanicked "boom", r)) w in
  returned result = Some tt
  ∧ workers (finalWorld result) = 0%nat
  ∧ wg (finalWorld result) = 0
  ∧ goroutines (finalWorld result) = [].
Proof.
  intros w result.
  destruct (@worker_recovers_action_panic Demo.externals Demo.scheduler
              Demo.o1 Demo.o1
              (fun r => (ActionPanicked "boom", r)) "boom" (repository w) w
              eq_refl eq_refl eq_refl eq_refl)
    as (Hret & Hw & Hg & Hgo & _).
  split; [exact Hret|]. split; [exact Hw|]. split; [exact Hg | exact Hgo].
Defined.

Lemma orphan_mitigation_goroutine_witness :
  let failedOp :=
    with_Errors "{error:InternalServerError,description:broker unreachable}"
      (with_State FAILED (with_DeletionScheduled 90 Demo.o1)) in
  let w := Demo.world [failedOp] [Demo.binding false] [] 1 in
  let result := worker Demo.scheduler failedOp (deletionAction failedOp) w in
  returned result = Some tt
  ∧ storedReady "binding" "r1" (finalWorld result) = None
  ∧ workers (finalWorld result) = 0%nat.
Proof.
  intros failedOp w result.
  destruct (@orphan_mitigation_goroutine Demo.externals Demo.scheduler
              failedOp failedOp w)
    as (Hret & Hgone & _ & _ & _ & Hw & _);
    [reflexivity | reflexivity | reflexivity | reflexivity | reflexivity
    | vm_compute; discriminate |].
  split; [exact Hret|]. split; [exact Hgone | exact Hw].
Defined.

Lemma CreateBinding_fresh_witness :
  let w := Demo.world [] [] [] 0 in
  ∃ w',
    CreateBinding Demo.scheduler "binding" "o1" "r1" w
    = Returned (Demo.binding true) w'
    ∧ storedReady "binding" "r1" w' = Some true
    ∧ storedState "o1" w' = Some SUCCEEDED.
Proof.
  intros w.
  destruct (@CreateBinding_fresh Demo.externals Demo.scheduler "binding" "o1"
              "r1" w)
    as (w' & Hrun & Hready & _ & Hop & _);
    [reflexivity | reflexivity | reflexivity | reflexivity | reflexivity
    | reflexivity |].
  exists w'. split; [exact Hrun|]. split; [exact Hready|].
  unfold storedState. by rewrite Hop.
Defined.

(** Scenario S4: the last create was abandoned two minutes ago. *)
Lemma checkForConcurrentOperations_not_in_progress_witness :
  checkForConcurrentOperations Demo.scheduler 220 o2 Demo.o1 = None
  ↔ ¬ (Type_ Demo.o1 = DELETE ∧ Type_ o2 ≠ DELETE
       ∧ DeletionScheduled Demo.o1 ≠ 0).
Proof.
  apply (checkForConcurrentOperations_not_in_progress Demo.scheduler 220 o2
           Demo.o1).
  - right. vm_compute. discriminate.
  - vm_compute. by left.
  - vm_compute. by left.
Defined.

Lemma checkForConcurrentOperations_admits_later_witness :
  checkForConcurrentOperations Demo.scheduler 300 o2 Demo.o1 = None.
Proof.
  apply (checkForConcurrentOperations_admits_later Demo.scheduler 220 300 o2
           Demo.o1).
  - vm_compute. discriminate.
  - reflexivity.
Defined.

Lemma ScheduleSyncStorageAction_takes_no_slot_witness :
  let w := Demo.world [] [Demo.binding true] [] 0 in
  spawned w
    (finalWorld (ScheduleSyncStorageAction Demo.scheduler
                   (mkOperation "o3" 100 DELETE IN_PROGRESS "r1" "binding"
                      false 0 "" []) noAction w)) [].
Proof.
  intros w.
  apply (@ScheduleSyncStorageAction_takes_no_slot Demo.externals Demo.scheduler).
  intros r object e. discriminate.
Defined.

Lemma schedule_rejects_invalid_operation_witness :
  let w := Demo.world [] [] [] 0 in
  let done := with_State SUCCEEDED Demo.o1 in
  (∃ e, ScheduleSyncStorageAction Demo.scheduler done noAction w
        = Returned (None, Some e) w)
  ∧ (∃ e, ScheduleAsyncStorageAction Demo.scheduler done noAction w
          = Returned (Some e) w).
Proof.
  intros w done.
  apply (@schedule_rejects_invalid_operation Demo.externals Demo.scheduler done
           noAction w).
  left. reflexivity.
Defined.

(** Scenario S1: a second create while the first is in progress. *)
Lemma schedule_returns_gate_rejection_witness :
  let w := Demo.world [Demo.o1] [] [] 0 in
  ∃ e,
    checkForConcurrentOperations Demo.scheduler 100 o2 Demo.o1 = Some e
    ∧ ScheduleSyncStorageAction Demo.scheduler o2 noAction w
      = Returned (None, Some e)
          (with_repository (consumeFault (repository w)) w).
Proof.
  intros w.
  destruct (checkForConcurrentOperations Demo.scheduler 100 o2 Demo.o1)
    as [e|] eqn:Hgate; [|vm_compute in Hgate; discriminate].
  exists e. split; [reflexivity|].
  apply (@schedule_returns_gate_rejection Demo.externals Demo.scheduler o2
           Demo.o1 noAction e w).
  - vm_compute. discriminate.
  - reflexivity.
  - reflexivity.
  - reflexivity.
  - exact Hgate.
Defined.

Lemma admitted_operation_is_last_witness :
  let w := Demo.world [] [] [] 0 in
  let w1 :=
    finalWorld (ScheduleAsyncStorageAction Demo.scheduler Demo.o1 noAction w) in
  executeOperationPreconditions Demo.scheduler o2 w1
  = match
      checkForConcurrentOperations Demo.scheduler (clock (repository w1)) o2
        Demo.o1
    with
    | Some e =>
        Returned (Some e) (with_repository (consumeFault (repository w1)) w1)
    | None =>
        storeOrUpdateOperation o2 (Some Demo.o1)
          (with_repository (consumeFault (repository w1)) w1)
    end.
Proof.
  intros w w1.
  apply (@admitted_operation_is_last Demo.externals Demo.scheduler Demo.o1 o2
           noAction w w1).
  - reflexivity.
  - reflexivity.
  - reflexivity.
  - vm_compute. discriminate.
  - reflexivity.
  - reflexivity.
Defined.

Lemma CreateBinding_existing_witness :
  let w := Demo.world [] [Demo.binding true] [] 0 in
  ∃ w',
    CreateBinding Demo.scheduler "binding" "o1" "r1" w
    = Panicked "failed to create binding with name test-service-binding" w'
    ∧ objects (repository w') = objects (repository w)
    ∧ storedState "o1" w' = Some FAILED.
Proof.
  intros w.
  destruct (@CreateBinding_existing Demo.externals Demo.scheduler "binding"
              "o1" "r1" "{error:Conflict,description:unique constraint violation}"
              true w)
    as (w' & Hrun & Hobj & Hops & _);
    [reflexivity | reflexivity | reflexivity | reflexivity | reflexivity
    | reflexivity | reflexivity |].
  exists w'. split; [exact Hrun|]. split; [exact Hobj|].
  unfold storedState, storedOperation. by rewrite Hops.
Defined.
End MoreScenarios.

Section FaultyScenarios.
#[local] Existing Instance Faulty.externals.

Lemma handleActionResponseFailure_marshal_failure_witness :
  let w := Demo.world [Demo.o1] [Demo.binding false] [] 0 in
  handleActionResponseFailure Demo.scheduler (HTTPError "Teapot" "short" 0)
    Demo.o1 w
  = Returned
      (Some (ErrorString
         "setting new operation state failed: json: unsupported value")) w.
Proof.
  intros w.
  apply (@handleActionResponseFailure_marshal_failure Faulty.externals
           Demo.scheduler (HTTPError "Teapot" "short" 0)
           (ErrorString "json: unsupported value") Demo.o1 w).
  - reflexivity.
  - reflexivity.
Defined.

Lemma worker_context_failure_witness :
  let w := Demo.world [Faulty.detached] [Demo.binding true] [] 1 in
  let result :=
    worker Demo.scheduler Faulty.detached
      (fun r => (ActionReturned (Some (Demo.binding true)) None, r)) w in
  returned result = Some tt
  ∧ objects (repository (finalWorld result)) = objects (repository w)
  ∧ workers (finalWorld result) = 0%nat
  ∧ storedState "detached" (finalWorld result) = Some FAILED.
Proof.
  intros w result.
  destruct (@worker_context_failure Faulty.externals Demo.scheduler
              Faulty.detached
              (fun r => (ActionReturned (Some (Demo.binding true)) None, r))
              (ErrorString "operation context is read-only") w eq_refl)
    as (Hret & Hobj & _ & Hw & _ & Hrow).
  split; [exact Hret|]. split; [exact Hobj|]. split; [exact Hw|].
  pose proof (Hrow _ eq_refl ltac:(vm_compute; discriminate) eq_refl) as Hst.
  subst result. unfold storedState.
  change (ID Faulty.detached) with "detached" in Hst.
  by rewrite Hst.
Defined.
End FaultyScenarios.
